(** * stats_on_sight: the text-to-team-to-game-to-roster pipeline of [src/app.js]

    A shallow embedding of the upload handler and of the functions
    behind it ([getTeamIdsFromText], [getCurrentGame], [getGameStats],
    [formatJson]), and the properties of the specification stated on it.

    - JavaScript strings are sequences of UTF-16 code units.
    - Parsed JSON is a dynamically typed [value]; property access follows
      the language: reading a property of [undefined] or [null] throws a
      [TypeError], a missing property reads as [undefined].
    - JSON numbers are integers (team, game and player identifiers are):
      [VNumber n] is the number the integer literal [n] is read as, the
      double nearest to [n], and prints as the language prints it.
      Responses with fractional numbers are outside the model.
    - Calls to the outside world (object store, OCR, HTTP, the Express
      response object, the console) are events of a free monad [prog];
      an environment answers them. *)

From Stdlib Require Import List ZArith NArith String Ascii Bool Lia DecimalString.
From Equations Require Import Equations.
Import ListNotations.

Set Warnings "-register-all".

(** ** Strings *)

Module JsString.

(** A UTF-16 code unit. *)
Abbreviation code_unit := N (only parsing).

Abbreviation js_string := (list N) (only parsing).

(** The code units of an ASCII literal of the source. *)
Definition lit (s : string) : js_string :=
  map N_of_ascii (list_ascii_of_string s).

Fixpoint eqb (s t : js_string) : bool :=
  match s, t with
  | [], [] => true
  | c :: s', d :: t' => N.eqb c d && eqb s' t'
  | _, _ => false
  end.

(** The decimal digits of an integer, with a leading minus sign for a
    negative one. *)
Definition decimal (n : Z) : js_string :=
  lit (NilZero.string_of_int (Z.to_int n)).

(** The number a non-negative integer literal is read as: the nearest
    double, ties to the even mantissa; [None] when that is [Infinity].
    Integers below 2^53 are read exactly. *)
Definition nearest_double (m : Z) : option Z :=
  if (m <? 9007199254740992)%Z then Some m
  else
    let shift := (Z.log2 m - 52)%Z in
    let q := Z.shiftr m shift in
    let r := (m - Z.shiftl q shift)%Z in
    let half := Z.shiftl 1 (shift - 1) in
    let q' := if (half <? r)%Z || ((r =? half)%Z && Z.odd q) then (q + 1)%Z else q in
    let d := Z.shiftl q' shift in
    if (Z.log2 d <? 1024)%Z then Some d else None.

(** Whether the integer [c] is read as the double [d]. *)
Definition reads_as (d c : Z) : bool :=
  match nearest_double c with
  | Some x => (x =? d)%Z
  | None => false
  end.

(** The integer with the fewest significant digits that is read as [d],
    the nearest to [d] among those, searched from one digit on:
    [scale] is the weight of the last significant digit tried. *)
Fixpoint shortest_from (fuel : nat) (d scale : Z) : Z :=
  let lo := (d / scale * scale)%Z in
  let hi := (lo + scale)%Z in
  match reads_as d lo, reads_as d hi with
  | true, true =>
      if (d - lo <? hi - d)%Z then lo
      else if (hi - d <? d - lo)%Z then hi
      else if Z.even (lo / scale) then lo else hi
  | true, false => lo
  | false, true => hi
  | false, false =>
      match fuel with
      | O => d
      | S fuel' => shortest_from fuel' d (scale / 10)
      end
  end.

Fixpoint trim_zeros (ds : js_string) : js_string :=
  match ds with
  | [] => []
  | c :: rest =>
      match trim_zeros rest with
      | [] => if (c =? 48)%N then [] else [c]
      | kept => c :: kept
      end
  end.

(** [Number::toString] on a double [d] that is a positive integer: the
    shortest digits that read back as [d], written out in full up to 21
    digits and in exponent form beyond. *)
Definition print_double (d : Z) : js_string :=
  let digits := List.length (decimal d) in
  let c := shortest_from digits d (10 ^ (Z.of_nat digits - 1)) in
  let ds := decimal c in
  let n := List.length ds in
  if (n <=? 21)%nat then ds
  else
    match trim_zeros ds with
    | [] => ds
    | [x] => x :: lit "e+" ++ decimal (Z.of_nat n - 1)
    | x :: rest => x :: 46%N :: rest ++ lit "e+" ++ decimal (Z.of_nat n - 1)
    end.

(** [Number::toString] on the number an integer literal is read as.
    A safe integer (below 2^53 in absolute value) prints as its decimal
    digits; a larger one prints as the double nearest to it does. *)
Definition of_Z (n : Z) : js_string :=
  if (Z.abs n <? 9007199254740992)%Z then decimal n
  else
    let sign := if (n <? 0)%Z then lit "-" else [] in
    match nearest_double (Z.abs n) with
    | Some d => sign ++ print_double d
    | None => sign ++ lit "Infinity"
    end.

Definition digit_of (c : code_unit) : option N :=
  if (48 <=? c)%N && (c <=? 57)%N then Some (c - 48)%N else None.

Fixpoint digits_value (acc : N) (s : js_string) : option N :=
  match s with
  | [] => Some acc
  | c :: r =>
      match digit_of c with
      | Some d => digits_value (10 * acc + d)%N r
      | None => None
      end
  end.

(** A property key is an array index when it is the canonical decimal
    spelling of a natural number: digits only, no leading zero. *)
Definition array_index (k : js_string) : option nat :=
  match k with
  | [] => None
  | [48%N] => Some 0
  | 48%N :: _ => None
  | _ => option_map N.to_nat (digits_value 0 k)
  end.

(** The characters matched by [\s] (which already contains [\n]):
    WhiteSpace and LineTerminator of the language, tested on code units
    since the pattern has no [u] flag. *)
Definition is_white_space (c : code_unit) : bool :=
  ((9 <=? c) && (c <=? 13) || (c =? 32) || (c =? 160) || (c =? 5760)
   || (8192 <=? c) && (c <=? 8202) || (c =? 8232) || (c =? 8233)
   || (c =? 8239) || (c =? 8287) || (c =? 12288) || (c =? 65279))%N.

End JsString.

Import JsString.

(** ** Values and exceptions *)

Inductive js_error : Type :=
| TypeError
| SyntaxError
| ServiceError.

Inductive result (A : Type) : Type :=
| Ok (a : A)
| Throw (e : js_error).

Arguments Ok {A} a.
Arguments Throw {A} e.

Definition rbind {A B} (r : result A) (f : A -> result B) : result B :=
  match r with
  | Ok a => f a
  | Throw e => Throw e
  end.

Declare Scope result_scope.
Delimit Scope result_scope with result.
Notation "'let?' x ':=' r 'in' k" := (rbind r (fun x => k))
  (at level 10, x name, r at level 100, k at level 200) : result_scope.
Local Open Scope result_scope.

(** What [JSON.parse] produces, plus [undefined]. The properties of an
    object are kept in source order; [JSON.parse] lets a later duplicate
    of a key override an earlier one. *)
Inductive value : Type :=
| VUndefined
| VNull
| VBool (b : bool)
| VNumber (n : Z)
| VString (s : js_string)
| VArray (elems : list value)
| VObject (props : list (js_string * value)).

Definition nullish (v : value) : bool :=
  match v with
  | VUndefined | VNull => true
  | _ => false
  end.

(** [Object.prototype.hasOwnProperty] on an object literal or a parsed
    object. *)
Definition hasOwnProperty (props : list (js_string * value)) (k : js_string) : bool :=
  existsb (fun p => JsString.eqb (fst p) k) props.

(** The value of the own property [k]: the last binding wins;
    [undefined] when there is none. *)
Fixpoint get_own (props : list (js_string * value)) (k : js_string) : value :=
  match props with
  | [] => VUndefined
  | (k', v) :: rest =>
      if hasOwnProperty rest k then get_own rest k
      else if JsString.eqb k' k then v else VUndefined
  end.

(** [v[k]] for a key [k] that names no property of the built-in
    prototypes (no key the source uses does: they are fixed names such
    as [teams] or [gamePk], the index [0], and keys that start with
    [ID]). *)
Definition get (v : value) (k : js_string) : result value :=
  match v with
  | VUndefined | VNull => Throw TypeError
  | VBool _ | VNumber _ => Ok VUndefined
  | VString s =>
      match array_index k with
      | Some i =>
          match nth_error s i with
          | Some c => Ok (VString [c])
          | None => Ok VUndefined
          end
      | None =>
          if JsString.eqb k (lit "length") then Ok (VNumber (Z.of_nat (List.length s)))
          else Ok VUndefined
      end
  | VArray l =>
      match array_index k with
      | Some i =>
          match nth_error l i with
          | Some x => Ok x
          | None => Ok VUndefined
          end
      | None =>
          if JsString.eqb k (lit "length") then Ok (VNumber (Z.of_nat (List.length l)))
          else Ok VUndefined
      end
  | VObject props => Ok (get_own props k)
  end.

(** [v[k1][k2]...[kn]], left to right. *)
Fixpoint path (v : value) (ks : list js_string) : result value :=
  match ks with
  | [] => Ok v
  | k :: ks' => let? w := get v k in path w ks'
  end.

(** The string a value contributes to a string concatenation
    ([ToPrimitive] then [ToString]). An array joins its elements with
    commas, [null] and [undefined] elements counting as empty; a parsed
    object prints as [[object Object]], unless it has an own property
    [toString], which is not callable and makes the conversion throw. *)
Fixpoint to_string (v : value) : result js_string :=
  match v with
  | VUndefined => Ok (lit "undefined")
  | VNull => Ok (lit "null")
  | VBool true => Ok (lit "true")
  | VBool false => Ok (lit "false")
  | VNumber n => Ok (of_Z n)
  | VString s => Ok s
  | VArray l =>
      (fix join (l : list value) : result js_string :=
         match l with
         | [] => Ok []
         | x :: rest =>
             let? s := (if nullish x then Ok [] else to_string x) in
             match rest with
             | [] => Ok s
             | _ :: _ => let? r := join rest in Ok (s ++ lit "," ++ r)
             end
         end) l
  | VObject props =>
      if hasOwnProperty props (lit "toString") then Throw TypeError
      else Ok (lit "[object Object]")
  end.

(** [lhs + v] for a string [lhs]. *)
Definition concat (lhs : js_string) (v : value) : result js_string :=
  let? s := to_string v in Ok (lhs ++ s).

(** [v == "Live"]. A string compares by its code units; [undefined] and
    [null] are unequal to every string; a number or a boolean is compared
    with [ToNumber("Live")], which is [NaN], hence unequal; an array or an
    object is first converted to a primitive string. *)
Definition equals_Live (v : value) : result bool :=
  match v with
  | VString s => Ok (JsString.eqb s (lit "Live"))
  | VUndefined | VNull | VBool _ | VNumber _ => Ok false
  | VArray _ | VObject _ => let? s := to_string v in Ok (JsString.eqb s (lit "Live"))
  end.

(** [Array.prototype.map] with a callback that can throw. *)
Fixpoint map_throwing {A B} (f : A -> result B) (l : list A) : result (list B) :=
  match l with
  | [] => Ok []
  | x :: rest =>
      let? y := f x in
      let? ys := map_throwing f rest in
      Ok (y :: ys)
  end.

(** [v.map(f)]: only arrays have a callable [map]. *)
Definition array_map (v : value) (f : value -> result value) : result value :=
  match v with
  | VArray l => let? ys := map_throwing f l in Ok (VArray ys)
  | _ => Throw TypeError
  end.

(** ** The team table and the team resolver *)

(** [teamNameMap], lines 50-82. *)
Definition teamNameMap : list (js_string * value) :=
  [ (lit "NJD", VNumber 1); (lit "NYI", VNumber 2); (lit "NYR", VNumber 3);
    (lit "PHI", VNumber 4); (lit "PIT", VNumber 5); (lit "BOS", VNumber 6);
    (lit "BUF", VNumber 7); (lit "MTL", VNumber 8); (lit "OTT", VNumber 9);
    (lit "TOR", VNumber 10); (lit "CAR", VNumber 12); (lit "FLA", VNumber 13);
    (lit "TBL", VNumber 14); (lit "WSH", VNumber 15); (lit "CHI", VNumber 16);
    (lit "DET", VNumber 17); (lit "NSH", VNumber 18); (lit "STL", VNumber 19);
    (lit "CGY", VNumber 20); (lit "COL", VNumber 21); (lit "EDM", VNumber 22);
    (lit "VAN", VNumber 23); (lit "ANA", VNumber 24); (lit "DAL", VNumber 25);
    (lit "LAK", VNumber 26); (lit "SJS", VNumber 28); (lit "CBJ", VNumber 29);
    (lit "MIN", VNumber 30); (lit "WPG", VNumber 52); (lit "ARI", VNumber 53);
    (lit "VGK", VNumber 54) ].

(** The abbreviations literally listed in the table. *)
Definition team_keys : list js_string := Eval cbv in map fst teamNameMap.

(** [description.split(/[\s\n]+/)]: the pieces between the maximal runs
    of separator characters. The piece before a leading separator and the
    piece after a trailing one are empty strings and are kept, and the
    empty string splits into one empty piece. [in_sep] tells that the
    previous character was a separator, [piece] is the piece read so far. *)
Fixpoint split_from (in_sep : bool) (piece : js_string) (s : js_string) : list js_string :=
  match s with
  | [] => [piece]
  | c :: rest =>
      if is_white_space c then
        if in_sep then split_from true [] rest
        else piece :: split_from true [] rest
      else split_from false (piece ++ [c]) rest
  end.

Definition split (description : js_string) : list js_string :=
  split_from false [] description.

(** The body of the [forEach] callback, lines 148-150. *)
Definition push_team (teams : list value) (word : js_string) : list value :=
  if hasOwnProperty teamNameMap word then teams ++ [get_own teamNameMap word]
  else teams.

(** [teams] after the [forEach] of lines 146-151. *)
Definition collect_teams (words : list js_string) : list value :=
  fold_left push_team words [].

(** The team identifiers [getTeamIdsFromText] computes from a text. *)
Definition team_ids (description : js_string) : list value :=
  collect_teams (split description).

(** *** The reference definition of the resolver

    Written from the words of the specification: the tokens of a text are
    its maximal runs of characters that are not white space; a token is
    kept when it is a key of the table, and is mapped to the identifier
    the table gives it. *)

Definition is_token_char (c : code_unit) : bool := negb (is_white_space c).

Fixpoint take_while {A} (p : A -> bool) (l : list A) : list A :=
  match l with
  | [] => []
  | x :: r => if p x then x :: take_while p r else []
  end.

Fixpoint drop_while {A} (p : A -> bool) (l : list A) : list A :=
  match l with
  | [] => []
  | x :: r => if p x then drop_while p r else l
  end.

Equations? tokens (s : js_string) : list js_string by wf (List.length s) lt :=
tokens [] := [];
tokens (c :: r) with is_white_space c := {
  | true => tokens r
  | false => (c :: take_while is_token_char r) :: tokens (drop_while is_token_char r)
}.
Proof.
  all: simpl; try lia.
  assert (shorter : forall l : js_string,
             List.length (drop_while is_token_char l) <= List.length l).
  { induction l as [|x l IH]; simpl; [lia|].
    destruct (is_token_char x); simpl; lia. }
  specialize (shorter r); lia.
Qed.

Definition team_id_of (token : js_string) : option Z :=
  match find (fun p => JsString.eqb (fst p) token) teamNameMap with
  | Some (_, VNumber n) => Some n
  | _ => None
  end.

Fixpoint keep_teams (toks : list js_string) : list Z :=
  match toks with
  | [] => []
  | t :: r =>
      match team_id_of t with
      | Some n => n :: keep_teams r
      | None => keep_teams r
      end
  end.

Definition team_ids_reference (description : js_string) : list Z :=
  keep_teams (tokens description).

(** ** The game resolver and the boxscore formatter: the pure parts *)

Definition next_game_path : list js_string :=
  [lit "teams"; lit "0"; lit "nextGameSchedule"; lit "dates"; lit "0"; lit "games"; lit "0"].

Definition previous_game_path : list js_string :=
  [lit "teams"; lit "0"; lit "previousGameSchedule"; lit "dates"; lit "0"; lit "games"; lit "0"].

(** Lines 170-177 of [getCurrentGame]: the game identifier chosen from
    the parsed schedule response. *)
Definition select_gameId (json : value) : result value :=
  let? nextGame := path json next_game_path in
  let? status := get nextGame (lit "status") in
  let? state := get status (lit "abstractGameState") in
  let? live := equals_Live state in
  if live then get nextGame (lit "gamePk")
  else
    let? prevGame := path json previous_game_path in
    get prevGame (lit "gamePk").

(** The callback of [onIce.map] for one side, lines 229-234 and 235-240. *)
Definition onIce_player (json : value) (side : js_string) (playerId : value) : result value :=
  let? players := path json [lit "teams"; side; lit "players"] in
  let? key := concat (lit "ID") playerId in
  let? entry := get players key in
  let? player := get entry (lit "person") in
  let? fullName := get player (lit "fullName") in
  let? number := get player (lit "primaryNumber") in
  Ok (VObject [(lit "fullName", fullName); (lit "number", number)]).

(** [formatJson], lines 215-244. *)
Definition formatJson (json : value) : result value :=
  let? home_name := path json [lit "teams"; lit "home"; lit "team"; lit "name"] in
  let? away_name := path json [lit "teams"; lit "away"; lit "team"; lit "name"] in
  let? home_ids := path json [lit "teams"; lit "home"; lit "onIce"] in
  let? home_onIce := array_map home_ids (onIce_player json (lit "home")) in
  let? away_ids := path json [lit "teams"; lit "away"; lit "onIce"] in
  let? away_onIce := array_map away_ids (onIce_player json (lit "away")) in
  Ok (VObject
        [ (lit "home", VObject [(lit "name", home_name); (lit "onIce", home_onIce)]);
          (lit "away", VObject [(lit "name", away_name); (lit "onIce", away_onIce)]) ]).

(** ** Effects *)

(** One OCR annotation; only its [description] is read. *)
Record annotation : Type := { description : js_string }.

(** [req.file] as multer leaves it. *)
Record file : Type := { originalname : js_string; buffer : list N }.

(** A request to [POST /upload]; [req_file] is [None] when the form had
    no [file] field. *)
Record request : Type := { req_file : option file }.

(** What [console.log] is given. *)
Inductive logged : Type :=
| LogValue (v : value)
| LogWords (words : list js_string)
| LogDetections (detections : list annotation)
| LogError (err : js_error).

(** How the write stream of the blob ends. *)
Inductive write_outcome : Type :=
| Finish
| WriteError (err : js_error).

(** The calls the program makes to its collaborators, indexed by the
    type of the answer. [httpClient_get] stands for the request together
    with the accumulation of the response chunks: its answer is [body]
    as the [end] listener finds it (the source registers no listener for
    transport errors, which are not modelled). The methods of the Express
    response object are calls like the others: what Express does with
    them is outside the program. *)
Inductive event : Type -> Type :=
| console_log (m : logged) : event unit
| httpClient_get (url : js_string) : event js_string
| blob_write (name : js_string) (data : list N) : event write_outcome
| textDetection (url : js_string) : event (result (list annotation))
| res_status (code : Z) : event unit
| res_send (body : value) : event unit
| res_json (body : value) : event unit
| next (err : js_error) : event unit.

(** Programs: a result, or a call and what to do with its answer. *)
Inductive prog (A : Type) : Type :=
| Ret (a : A)
| Vis (X : Type) (e : event X) (k : X -> prog A).

Arguments Ret {A} a.
Arguments Vis {A X} e k.

Fixpoint bind {A B} (p : prog A) (f : A -> prog B) : prog B :=
  match p with
  | Ret a => f a
  | Vis e k => Vis e (fun x => bind (k x) f)
  end.

Definition trigger {X} (e : event X) : prog X := Vis e (fun x => Ret x).

Declare Scope prog_scope.
Delimit Scope prog_scope with prog.
Notation "x <- p ;; q" := (bind p (fun x => q))
  (at level 61, p at next level, right associativity) : prog_scope.
Notation "p ;; q" := (bind p (fun _ => q))
  (at level 61, right associativity) : prog_scope.
Local Open Scope prog_scope.

(** An environment answers every call. *)
Definition env : Type := forall X : Type, event X -> X.

(** A call of any answer type, as it appears in a trace. *)
Inductive call : Type :=
| Call (X : Type) (e : event X).

Arguments Call {X} e.

(** The calls a program makes, in order, and its result, when the
    environment [h] answers. *)
Fixpoint run {A} (h : env) (p : prog A) : list call * A :=
  match p with
  | Ret a => ([], a)
  | Vis e k => let (t, a) := run h (k (h _ e)) in (Call e :: t, a)
  end.

Definition trace {A} (h : env) (p : prog A) : list call := fst (run h p).

Definition outcome {A} (h : env) (p : prog A) : A := snd (run h p).

Definition is_stats_call (c : call) : bool :=
  match c with
  | Call (httpClient_get _) => true
  | _ => false
  end.

Definition is_store_call (c : call) : bool :=
  match c with
  | Call (blob_write _ _) => true
  | _ => false
  end.

Definition is_ocr_call (c : call) : bool :=
  match c with
  | Call (textDetection _) => true
  | _ => false
  end.

Definition is_response_call (c : call) : bool :=
  match c with
  | Call (res_status _) | Call (res_send _) | Call (res_json _) => true
  | _ => false
  end.

(** ** The pipeline *)

Section Pipeline.

(** [JSON.parse], a function of the language. *)
Variable JSON_parse : js_string -> result value.

(** [bucket.name], from the environment variable
    [GCLOUD_STORAGE_BUCKET]. *)
Variable bucket_name : js_string.

(** The promise an asynchronous function returns is the result of its
    program: [Ok] when it resolves, [Throw] when it rejects. *)

(** The [end] listener of [getGameStats], lines 200-210. *)
Definition on_boxscore_end (body : js_string) : prog (result value) :=
  match JSON_parse body with
  | Throw err => trigger (console_log (LogError err)) ;; Ret (Throw err)
  | Ok json =>
      trigger (console_log (LogValue json)) ;;
      match formatJson json with
      | Ok view => Ret (Ok view)
      | Throw err => trigger (console_log (LogError err)) ;; Ret (Throw err)
      end
  end.

(** The address [getGameStats] requests, line 193. *)
Definition boxscore_url (gameID : value) : result js_string :=
  let? prefix := concat (lit "https://statsapi.web.nhl.com/api/v1/game/") gameID in
  Ok (prefix ++ lit "/boxscore").

(** [getGameStats], lines 191-213. *)
Definition getGameStats (gameID : value) : prog (result value) :=
  match boxscore_url gameID with
  | Throw err => Ret (Throw err)
  | Ok requestURL =>
      body <- trigger (httpClient_get requestURL) ;;
      on_boxscore_end body
  end.

(** The address [getCurrentGame] requests, line 159. *)
Definition schedule_url (teamID : value) : result js_string :=
  let? prefix := concat (lit "https://statsapi.web.nhl.com/api/v1/teams/") teamID in
  Ok (prefix ++ lit "?expand=team.schedule.next&&expand=team.schedule.previous").

(** What [getCurrentGame] does with the promise of [getGameStats],
    lines 179-185: resolve with its value, or log its error and
    reject. *)
Definition relay (settled : result value) : prog (result value) :=
  match settled with
  | Ok retVal => Ret (Ok retVal)
  | Throw err => trigger (console_log (LogError err)) ;; Ret (Throw err)
  end.

(** The [end] listener of [getCurrentGame], lines 167-186. *)
Definition on_schedule_end (body : js_string) : prog (result value) :=
  match (let? json := JSON_parse body in select_gameId json) with
  | Throw err => trigger (console_log (LogError err)) ;; Ret (Throw err)
  | Ok gameId =>
      trigger (console_log (LogValue gameId)) ;;
      settled <- getGameStats gameId ;;
      relay settled
  end.

(** [getCurrentGame], lines 157-189. *)
Definition getCurrentGame (teamID : value) : prog (result value) :=
  match schedule_url teamID with
  | Throw err => Ret (Throw err)
  | Ok requestURL =>
      body <- trigger (httpClient_get requestURL) ;;
      on_schedule_end body
  end.

(** [getTeamIdsFromText], lines 143-155. *)
Definition getTeamIdsFromText (description : js_string) : prog (result value) :=
  let words := split description in
  trigger (console_log (LogWords words)) ;;
  let teams := collect_teams words in
  match teams with
  | [] => Ret (Ok (VObject []))
  | first :: _ => getCurrentGame first
  end.

Definition publicUrl (blob_name : js_string) : js_string :=
  lit "https://storage.googleapis.com/" ++ bucket_name ++ lit "/" ++ blob_name.

(** The [finish] listener of the blob stream, lines 109-129. Its
    result is [Throw] when the promise of the asynchronous listener
    rejects. *)
Definition on_finish (blob_name : js_string) : prog (result unit) :=
  detected <- trigger (textDetection (publicUrl blob_name)) ;;
  match detected with
  | Throw err => Ret (Throw err)
  | Ok detections =>
      trigger (console_log (LogDetections detections)) ;;
      resolved <-
        match detections with
        | first :: _ => getTeamIdsFromText (description first)
        | [] =>
            trigger (res_status 404) ;;
            trigger (res_send (VObject [(lit "error", VString (lit "No text in image"))])) ;;
            Ret (Ok VUndefined)
        end ;;
      match resolved with
      | Throw err => Ret (Throw err)
      | Ok teamIds =>
          trigger (res_status 200) ;;
          trigger (res_json teamIds) ;;
          Ret (Ok tt)
      end
  end.

(** The handler of [POST /upload], lines 93-132. It runs after multer:
    a file above the size limit never reaches it. *)
Definition upload (req : request) : prog (result unit) :=
  match req_file req with
  | None =>
      trigger (res_status 400) ;;
      trigger (res_send (VString (lit "No file uploaded."))) ;;
      Ret (Ok tt)
  | Some f =>
      ended <- trigger (blob_write (originalname f) (buffer f)) ;;
      match ended with
      | WriteError err => trigger (next err) ;; Ret (Ok tt)
      | Finish => on_finish (originalname f)
      end
  end.

End Pipeline.

(** ** What the properties speak about *)

(** The shape validator of the boxscore view: an object with exactly the
    keys [home] and [away], each an object with exactly the keys [name]
    and [onIce], the latter an array of objects with exactly the keys
    [fullName] and [number]. *)
Definition is_player_view (v : value) : bool :=
  match v with
  | VObject [(k1, _); (k2, _)] =>
      JsString.eqb k1 (lit "fullName") && JsString.eqb k2 (lit "number")
  | _ => false
  end.

Definition is_side_view (v : value) : bool :=
  match v with
  | VObject [(k1, _); (k2, VArray l)] =>
      JsString.eqb k1 (lit "name") && JsString.eqb k2 (lit "onIce")
      && forallb is_player_view l
  | _ => false
  end.

Definition is_boxscore_view (v : value) : bool :=
  match v with
  | VObject [(k1, h); (k2, a)] =>
      JsString.eqb k1 (lit "home") && JsString.eqb k2 (lit "away")
      && is_side_view h && is_side_view a
  | _ => false
  end.

(** The key under which the roster of a side lists a player. *)
Definition player_key (playerId : value) : result js_string :=
  concat (lit "ID") playerId.


(** Whether the roster [players] has an entry under the key of
    [playerId]. *)
Definition has_roster_entry (players playerId : value) : bool :=
  match player_key playerId, players with
  | Ok key, VObject props => hasOwnProperty props key
  | _, _ => false
  end.


Definition throws {A} (r : result A) : Prop := exists err, r = Throw err.



Definition boxscore_view (home_name : value) (home_onIce : list value)
    (away_name : value) (away_onIce : list value) : value :=
  VObject
    [ (lit "home", VObject [(lit "name", home_name); (lit "onIce", VArray home_onIce)]);
      (lit "away", VObject [(lit "name", away_name); (lit "onIce", VArray away_onIce)]) ].

(** *** Fixtures

    Literal responses of the stats API, in the shape the program
    reads. *)

Definition game_fixture (gamePk : Z) (state : string) : value :=
  VObject [ (lit "gamePk", VNumber gamePk);
            (lit "status", VObject [(lit "abstractGameState", VString (lit state))]) ].

Definition schedule_of (game : value) : value :=
  VObject [(lit "dates", VArray [VObject [(lit "games", VArray [game])]])].

(** A schedule response: the team with its next and previous games. *)
Definition schedule_fixture (nextGame prevGame : value) : value :=
  VObject
    [(lit "teams",
      VArray [VObject [ (lit "id", VNumber 10);
                        (lit "nextGameSchedule", schedule_of nextGame);
                        (lit "previousGameSchedule", schedule_of prevGame) ]])].

Definition schedule_live : value :=
  schedule_fixture (game_fixture 2019020500 "Live") (game_fixture 2019020480 "Final").

Definition schedule_idle : value :=
  schedule_fixture (game_fixture 2019020500 "Preview") (game_fixture 2019020480 "Final").

Definition player_fixture (id : Z) (fullName number : string) : js_string * value :=
  (lit "ID" ++ of_Z id,
   VObject [(lit "person",
             VObject [ (lit "id", VNumber id);
                       (lit "fullName", VString (lit fullName));
                       (lit "primaryNumber", VString (lit number)) ])]).

Definition side_fixture (name : string) (onIce : list Z)
    (players : list (js_string * value)) : value :=
  VObject [ (lit "team", VObject [(lit "name", VString (lit name))]);
            (lit "players", VObject players);
            (lit "onIce", VArray (map VNumber onIce)) ].

(** A boxscore response with two players on the ice on each side. *)
Definition boxscore_fixture : value :=
  VObject
    [(lit "teams",
      VObject
        [ (lit "away",
           side_fixture "Montreal Canadiens" [8470642; 8476469]%Z
             [ player_fixture 8470642 "Shea Weber" "6";
               player_fixture 8471679 "Carey Price" "31";
               player_fixture 8476469 "Joel Armia" "40" ]);
          (lit "home",
           side_fixture "Toronto Maple Leafs" [8479318; 8475166]%Z
             [ player_fixture 8475166 "John Tavares" "91";
               player_fixture 8479318 "Auston Matthews" "34" ]) ])].

(** The same response when the roster of the home side lacks one of the
    players on the ice. *)
Definition boxscore_missing_player : value :=
  VObject
    [(lit "teams",
      VObject
        [ (lit "away",
           side_fixture "Montreal Canadiens" [8470642]%Z
             [ player_fixture 8470642 "Shea Weber" "6" ]);
          (lit "home",
           side_fixture "Toronto Maple Leafs" [8479318; 8475166]%Z
             [ player_fixture 8479318 "Auston Matthews" "34" ]) ])].

(** An environment for the examples: every write finishes, the OCR
    finds [detections], the HTTP response to [url] has the body
    [respond url]. *)
Definition sample_env (detections : list annotation)
    (respond : js_string -> js_string) : env :=
  fun X e =>
    match e in event X return X with
    | console_log _ => tt
    | httpClient_get url => respond url
    | blob_write _ _ => Finish
    | textDetection _ => Ok detections
    | res_status _ => tt
    | res_send _ => tt
    | res_json _ => tt
    | next _ => tt
    end.

Definition silent : js_string -> js_string := fun _ => [].

(** A parser for the examples: every body parses to [json]. *)
Definition parse_as (json : value) : js_string -> result value :=
  fun _ => Ok json.

(** A parser for the examples, given by a table of bodies. *)
Definition parse_table (table : list (js_string * value)) : js_string -> result value :=
  fun body =>
    match find (fun p => JsString.eqb (fst p) body) table with
    | Some (_, json) => Ok json
    | None => Throw SyntaxError
    end.

(** The stats API of the examples: the schedule of every team is
    [schedule_live], every boxscore is [boxscore_fixture]. The bodies
    are named rather than spelled out. *)
Definition sample_api (url : js_string) : js_string :=
  if JsString.eqb url
       (lit "https://statsapi.web.nhl.com/api/v1/game/2019020500/boxscore")
  then lit "boxscore" else lit "schedule".

Definition sample_parse : js_string -> result value :=
  parse_table [(lit "schedule", schedule_live); (lit "boxscore", boxscore_fixture)].

(** The names [Object.prototype] gives every object. *)
Definition object_prototype_names : list js_string :=
  [ lit "constructor"; lit "hasOwnProperty"; lit "isPrototypeOf";
    lit "propertyIsEnumerable"; lit "toLocaleString"; lit "toString";
    lit "valueOf"; lit "__proto__"; lit "__defineGetter__";
    lit "__defineSetter__"; lit "__lookupGetter__"; lit "__lookupSetter__" ].

(** ** Strings and the table: basic facts *)

Lemma eqb_eq (s t : js_string) : JsString.eqb s t = true <-> s = t.
Proof.
  revert t; induction s as [|c s IH]; intros [|d t]; simpl; split; intro H;
    try reflexivity; try discriminate.
  - apply andb_true_iff in H as [Hc Hs].
    apply N.eqb_eq in Hc. apply IH in Hs. congruence.
  - injection H as -> ->. rewrite N.eqb_refl. simpl. now apply IH.
Qed.

Lemma eqb_refl (s : js_string) : JsString.eqb s s = true.
Proof. now apply eqb_eq. Qed.


Lemma hasOwnProperty_In props k :
  hasOwnProperty props k = true <-> In k (map fst props).
Proof.
  unfold hasOwnProperty. rewrite existsb_exists, in_map_iff. split.
  - intros [p [Hin Heq]]. apply eqb_eq in Heq. now exists p.
  - intros [p [Heq Hin]]. exists p. split; [assumption|]. now apply eqb_eq.
Qed.

Lemma team_key_iff (word : js_string) :
  hasOwnProperty teamNameMap word = true <-> In word team_keys.
Proof. apply hasOwnProperty_In. Qed.

Lemma not_team_key (word : js_string) :
  ~ In word team_keys -> hasOwnProperty teamNameMap word = false.
Proof.
  intro H. destruct (hasOwnProperty teamNameMap word) eqn:E; [|reflexivity].
  now apply team_key_iff in E.
Qed.

(** The entries of the table, one by one: the key is an own property and
    reads as the number listed. *)
Lemma team_id_of_spec (word : js_string) :
  match team_id_of word with
  | Some n => hasOwnProperty teamNameMap word = true
              /\ get_own teamNameMap word = VNumber n
  | None => hasOwnProperty teamNameMap word = false
  end.
Proof.
  destruct (hasOwnProperty teamNameMap word) eqn:E.
  - apply team_key_iff in E. unfold team_keys in E. simpl in E.
    repeat (destruct E as [<- | E]; [vm_compute; split; reflexivity|]).
    contradiction.
  - unfold team_id_of.
    destruct (find _ teamNameMap) as [[k v]|] eqn:F; [|reflexivity].
    apply find_some in F as [Hin Hk]. simpl in Hk. apply eqb_eq in Hk. subst k.
    assert (In word (map fst teamNameMap)) as Hkey
      by (apply in_map_iff; now exists (word, v)).
    apply hasOwnProperty_In in Hkey. congruence.
Qed.

(** ** Programs and their runs *)

Lemma run_vis {A X} (h : env) (e : event X) (k : X -> prog A) :
  trace h (Vis e k) = Call e :: trace h (k (h X e))
  /\ outcome h (Vis e k) = outcome h (k (h X e)).
Proof.
  unfold trace, outcome. simpl. destruct (run h (k (h X e))). now split.
Qed.

Lemma bind_trigger {A X} (e : event X) (k : X -> prog A) :
  bind (trigger e) k = Vis e k.
Proof. reflexivity. Qed.

(** ** The team resolver *)

Lemma push_team_app (teams : list value) (word : js_string) :
  push_team teams word = teams ++ push_team [] word.
Proof.
  unfold push_team. destruct (hasOwnProperty teamNameMap word); simpl.
  - reflexivity.
  - now rewrite app_nil_r.
Qed.

Lemma fold_push_team (words : list js_string) (teams : list value) :
  fold_left push_team words teams = teams ++ collect_teams words.
Proof.
  unfold collect_teams. revert teams.
  induction words as [|w ws IH]; intro teams; simpl.
  - now rewrite app_nil_r.
  - rewrite (IH (push_team teams w)), (IH (push_team [] w)).
    rewrite (push_team_app teams w). now rewrite app_assoc.
Qed.

Lemma collect_teams_cons (w : js_string) (ws : list js_string) :
  collect_teams (w :: ws) = push_team [] w ++ collect_teams ws.
Proof. unfold collect_teams at 1. simpl. apply fold_push_team. Qed.

Lemma collect_teams_app (ws1 ws2 : list js_string) :
  collect_teams (ws1 ++ ws2) = collect_teams ws1 ++ collect_teams ws2.
Proof.
  unfold collect_teams at 1. rewrite fold_left_app.
  fold (collect_teams ws1). apply fold_push_team.
Qed.

Lemma collect_teams_none (ws : list js_string) :
  Forall (fun w => ~ In w team_keys) ws -> collect_teams ws = [].
Proof.
  induction 1 as [|w ws Hw _ IH]; [reflexivity|].
  rewrite collect_teams_cons, IH. unfold push_team.
  now rewrite (not_team_key _ Hw).
Qed.

Lemma tokens_after_separator (c : code_unit) (r : js_string) :
  is_white_space c = true -> tokens (c :: r) = tokens r.
Proof. intro H. simp tokens. rewrite H. reflexivity. Qed.

Lemma tokens_at_word (c : code_unit) (r : js_string) :
  is_white_space c = false ->
  tokens (c :: r)
  = (c :: take_while is_token_char r) :: tokens (drop_while is_token_char r).
Proof. intro H. simp tokens. rewrite H. reflexivity. Qed.

(** The tokens of [piece ++ s], when [piece] holds no separator and is
    either empty or directly followed by [s]. *)
Definition pending (piece s : js_string) : list js_string :=
  match piece with
  | [] => tokens s
  | _ :: _ =>
      (piece ++ take_while is_token_char s) :: tokens (drop_while is_token_char s)
  end.

Lemma pending_snoc (piece : js_string) (c : code_unit) (s : js_string) :
  pending (piece ++ [c]) s
  = (piece ++ c :: take_while is_token_char s)
      :: tokens (drop_while is_token_char s).
Proof.
  unfold pending. destruct (piece ++ [c]) as [|x l] eqn:E.
  - now destruct piece.
  - rewrite <- E, <- app_assoc. reflexivity.
Qed.

Lemma push_empty_word : push_team [] [] = [].
Proof. reflexivity. Qed.

Lemma run_at_separator (c : code_unit) (r : js_string) :
  is_white_space c = true ->
  take_while is_token_char (c :: r) = []
  /\ drop_while is_token_char (c :: r) = c :: r.
Proof. intro H. simpl. unfold is_token_char. rewrite H. now split. Qed.

Lemma run_at_word (c : code_unit) (r : js_string) :
  is_white_space c = false ->
  take_while is_token_char (c :: r) = c :: take_while is_token_char r
  /\ drop_while is_token_char (c :: r) = drop_while is_token_char r.
Proof. intro H. simpl. unfold is_token_char. rewrite H. now split. Qed.

(** The pieces of [split] and the tokens of the reference definition
    yield the same teams: they differ by empty pieces only. *)
Lemma split_from_pending (s : js_string) :
  forall (in_sep : bool) (piece : js_string),
    (in_sep = true -> piece = []) ->
    collect_teams (split_from in_sep piece s) = collect_teams (pending piece s).
Proof.
  induction s as [|c rest IH]; intros in_sep piece Hsep.
  - destruct piece as [|x l]; unfold pending; simpl; simp tokens.
    + reflexivity.
    + now rewrite app_nil_r.
  - change (split_from in_sep piece (c :: rest))
      with (if is_white_space c
            then if in_sep then split_from true [] rest
                 else piece :: split_from true [] rest
            else split_from false (piece ++ [c]) rest).
    destruct (is_white_space c) eqn:Hc.
    + assert (Hrest : collect_teams (split_from true [] rest)
                      = collect_teams (tokens rest))
        by (apply (IH true []); reflexivity).
      destruct (run_at_separator c rest Hc) as [Htake Hdrop].
      destruct in_sep.
      * rewrite (Hsep eq_refl), Hrest. unfold pending.
        now rewrite (tokens_after_separator c rest Hc).
      * rewrite collect_teams_cons, Hrest.
        destruct piece as [|x l]; unfold pending.
        -- now rewrite (tokens_after_separator c rest Hc).
        -- rewrite Htake, Hdrop, app_nil_r, (tokens_after_separator c rest Hc).
           now rewrite collect_teams_cons.
    + rewrite (IH false (piece ++ [c])) by discriminate.
      rewrite pending_snoc.
      destruct (run_at_word c rest Hc) as [Htake Hdrop].
      destruct piece as [|x l]; unfold pending.
      * now rewrite (tokens_at_word c rest Hc).
      * now rewrite Htake, Hdrop.
Qed.

Lemma collect_teams_reference (ws : list js_string) :
  collect_teams ws = map VNumber (keep_teams ws).
Proof.
  induction ws as [|w ws IH]; [reflexivity|].
  rewrite collect_teams_cons, IH. simpl. unfold push_team.
  pose proof (team_id_of_spec w) as Hw.
  destruct (team_id_of w) as [n|].
  - destruct Hw as [-> ->]. reflexivity.
  - rewrite Hw. reflexivity.
Qed.

(** C6. For every description, the team identifiers [getTeamIdsFromText]
    collects (split on [/[\s\n]+/], then [hasOwnProperty] and [push] for
    each word) are those of the reference definition: the tokens between
    runs of white space that are keys of the 31-entry table, each mapped
    to its number, in document order and with duplicates. *)
Theorem team_ids_refines_reference :
  List.length teamNameMap = 31
  /\ forall description : js_string,
       team_ids description = map VNumber (team_ids_reference description).
Proof.
  split; [reflexivity|]. intro description.
  unfold team_ids, team_ids_reference, split.
  rewrite (split_from_pending description false []) by discriminate.
  apply collect_teams_reference.
Qed.

Example split_keeps_empty_pieces :
  split (lit " NJD  BOS ") = [[]; lit "NJD"; lit "BOS"; []].
Proof. reflexivity. Qed.

Example split_on_line_breaks :
  split (map N_of_ascii ["T"; "O"; "R"; "010"; "0"; "-"; "1"; "009"; "M"; "T"; "L"]%char)
  = [lit "TOR"; lit "0-1"; lit "MTL"].
Proof. reflexivity. Qed.

Example team_ids_in_document_order :
  team_ids (lit "MTL at TOR, mtl MTL") = [VNumber 8; VNumber 8].
Proof. reflexivity. Qed.

(** C10. A token that is not one of the 31 abbreviations listed in
    [teamNameMap] yields no team identifier: the [forEach] callback
    leaves [teams] as it was, and the teams collected from a text are
    those collected without the token. Membership is the
    [hasOwnProperty] test, so names of inherited properties such as
    [toString] are such tokens. *)
Theorem non_key_token_yields_no_team (token : js_string) :
  ~ In token team_keys ->
  forall (teams : list value) (before after : list js_string),
    push_team teams token = teams
    /\ collect_teams (before ++ token :: after) = collect_teams (before ++ after).
Proof.
  intros Hkey teams before after.
  assert (Hpush : forall ts, push_team ts token = ts).
  { intro ts. unfold push_team. now rewrite (not_team_key _ Hkey). }
  split; [apply Hpush|].
  rewrite !collect_teams_app, collect_teams_cons, Hpush. reflexivity.
Qed.

Lemma inherited_names_are_not_team_keys :
  Forall (fun name => ~ In name team_keys) object_prototype_names.
Proof.
  repeat constructor; rewrite <- team_key_iff; vm_compute; discriminate.
Qed.

Section Resolution.

Variable JSON_parse : js_string -> result value.

(** C3. When no word of the detected text is a key of the team table,
    [getTeamIdsFromText] logs the words and resolves with the empty
    object: whatever the environment, its only call is that
    [console.log], so [getCurrentGame] is not invoked and no request
    goes to the stats API. *)
Theorem no_team_token_no_stats_call (description : js_string) :
  (forall word, In word (split description) -> ~ In word team_keys) ->
  getTeamIdsFromText JSON_parse description
  = (trigger (console_log (LogWords (split description))) ;; Ret (Ok (VObject [])))
  /\ forall h : env,
       outcome h (getTeamIdsFromText JSON_parse description) = Ok (VObject [])
       /\ trace h (getTeamIdsFromText JSON_parse description)
          = [Call (console_log (LogWords (split description)))]
       /\ existsb is_stats_call
            (trace h (getTeamIdsFromText JSON_parse description)) = false.
Proof.
  intro Hnone.
  assert (Hteams : collect_teams (split description) = []).
  { apply collect_teams_none, Forall_forall. exact Hnone. }
  assert (Hprog : getTeamIdsFromText JSON_parse description
                  = (trigger (console_log (LogWords (split description))) ;;
                     Ret (Ok (VObject [])))).
  { unfold getTeamIdsFromText. cbv zeta. rewrite Hteams. reflexivity. }
  split; [exact Hprog|].
  intro h. rewrite Hprog. repeat split.
Qed.

(** C2. When the words of the detected text are [before], then
    [token], then [after], with no key of the table in [before] and
    [token] a key, the teams collected are the identifier of [token]
    followed by those of [after], and [getTeamIdsFromText] continues
    as [getCurrentGame] on the identifier of [token] alone: whatever
    [after] holds, the first request of every run is the schedule
    request for the team of [token]. *)
Theorem first_team_token_is_queried
    (description : js_string) (before : list js_string)
    (token : js_string) (after : list js_string) :
  split description = before ++ token :: after ->
  (forall word, In word before -> ~ In word team_keys) ->
  In token team_keys ->
  collect_teams (split description)
  = get_own teamNameMap token :: collect_teams after
  /\ getTeamIdsFromText JSON_parse description
     = (trigger (console_log (LogWords (split description))) ;;
        getCurrentGame JSON_parse (get_own teamNameMap token))
  /\ exists url,
       schedule_url (get_own teamNameMap token) = Ok url
       /\ forall h : env, exists rest,
            filter is_stats_call (trace h (getTeamIdsFromText JSON_parse description))
            = Call (httpClient_get url) :: rest.
Proof.
  intros Hsplit Hbefore Htoken.
  assert (Hteams : collect_teams (split description)
                   = get_own teamNameMap token :: collect_teams after).
  { rewrite Hsplit, collect_teams_app, collect_teams_cons.
    rewrite collect_teams_none by (apply Forall_forall; exact Hbefore).
    unfold push_team. apply team_key_iff in Htoken. rewrite Htoken.
    reflexivity. }
  assert (Hprog : getTeamIdsFromText JSON_parse description
                  = (trigger (console_log (LogWords (split description))) ;;
                     getCurrentGame JSON_parse (get_own teamNameMap token))).
  { unfold getTeamIdsFromText. cbv zeta. rewrite Hteams. reflexivity. }
  split; [exact Hteams|]. split; [exact Hprog|].
  assert (Hnum : exists n, get_own teamNameMap token = VNumber n).
  { pose proof (team_id_of_spec token) as Hspec.
    destruct (team_id_of token) as [n|].
    - exists n. apply Hspec.
    - apply team_key_iff in Htoken. congruence. }
  destruct Hnum as [n Hn].
  destruct (schedule_url (get_own teamNameMap token)) as [url|err] eqn:Hurl;
    [|rewrite Hn in Hurl; discriminate].
  exists url. split; [reflexivity|].
  intro h. rewrite Hprog. unfold getCurrentGame. rewrite Hurl.
  rewrite bind_trigger, (proj1 (run_vis h _ _)).
  rewrite bind_trigger, (proj1 (run_vis h _ _)).
  cbn [filter is_stats_call]. eexists. reflexivity.
Qed.

End Resolution.

(** ** The game resolver *)



Example select_gameId_live : select_gameId schedule_live = Ok (VNumber 2019020500).
Proof. reflexivity. Qed.

Example select_gameId_idle : select_gameId schedule_idle = Ok (VNumber 2019020480).
Proof. reflexivity. Qed.

(** A response that lacks an expected field makes the selection throw:
    here the team has no next game. *)
Example select_gameId_without_next_game :
  select_gameId
    (VObject [(lit "teams",
               VArray [VObject [(lit "previousGameSchedule",
                                 schedule_of (game_fixture 2019020480 "Final"))]])])
  = Throw TypeError.
Proof. reflexivity. Qed.

Section GameResolver.

Variable JSON_parse : js_string -> result value.


(** C9, as the code has it. For every team number [t], the address
    [getCurrentGame] requests is the base address of the team followed
    by a query string in which TWO ampersands separate the two
    [expand] parameters; it is not the address with a single
    ampersand. *)
Theorem schedule_url_double_ampersand (t : Z) :
  schedule_url (VNumber t)
  = Ok (lit "https://statsapi.web.nhl.com/api/v1/teams/" ++ of_Z t
        ++ lit "?expand=team.schedule.next&&expand=team.schedule.previous")
  /\ schedule_url (VNumber t)
     <> Ok (lit "https://statsapi.web.nhl.com/api/v1/teams/" ++ of_Z t
            ++ lit "?expand=team.schedule.next&expand=team.schedule.previous")
  /\ exists url, schedule_url (VNumber t) = Ok url
       /\ getCurrentGame JSON_parse (VNumber t)
          = Vis (httpClient_get url) (on_schedule_end JSON_parse).
Proof.
  assert (Hurl : schedule_url (VNumber t)
                 = Ok (lit "https://statsapi.web.nhl.com/api/v1/teams/" ++ of_Z t
                       ++ lit "?expand=team.schedule.next&&expand=team.schedule.previous")).
  { unfold schedule_url, concat. cbn [to_string rbind].
    rewrite <- app_assoc. reflexivity. }
  split; [exact Hurl|]. split.
  - rewrite Hurl. intro H. injection H as H.
    repeat apply app_inv_head in H.
    vm_compute in H. discriminate.
  - eexists. split; [exact Hurl|].
    unfold getCurrentGame. rewrite Hurl. reflexivity.
Qed.

End GameResolver.

Example schedule_url_of_Toronto :
  schedule_url (VNumber 10)
  = Ok (lit "https://statsapi.web.nhl.com/api/v1/teams/10?expand=team.schedule.next&&expand=team.schedule.previous").
Proof. reflexivity. Qed.

(** ** The boxscore formatter *)


Lemma get_own_absent (props : list (js_string * value)) (k : js_string) :
  hasOwnProperty props k = false -> get_own props k = VUndefined.
Proof.
  induction props as [|[k' v] rest IH]; [reflexivity|].
  unfold hasOwnProperty. simpl. intro H.
  apply orb_false_iff in H as [Hk Hrest].
  fold (hasOwnProperty rest k) in Hrest. now rewrite Hrest, Hk.
Qed.

Lemma player_key_prefix (playerId : value) (key : js_string) :
  player_key playerId = Ok key -> exists s, key = lit "ID" ++ s.
Proof.
  unfold player_key, concat. destruct (to_string playerId) as [s|]; simpl.
  - intro H. injection H as <-. now exists s.
  - discriminate.
Qed.

(** A key that starts with [ID] is neither an index nor [length]. *)
Lemma get_by_player_key (s : js_string) (v : value) :
  match v with VObject _ => False | _ => True end ->
  get v (lit "ID" ++ s) = Ok VUndefined \/ get v (lit "ID" ++ s) = Throw TypeError.
Proof.
  destruct v; intro H; try contradiction; simpl; auto.
Qed.

Lemma missing_entry_throws (players playerId : value) (key : js_string)
    (k : value -> result value) :
  has_roster_entry players playerId = false ->
  player_key playerId = Ok key ->
  throws (let? entry := get players key in
          let? player := get entry (lit "person") in
          k player).
Proof.
  intros Hno Hkey. unfold has_roster_entry in Hno. rewrite Hkey in Hno.
  destruct (player_key_prefix _ _ Hkey) as [s ->].
  assert (Hget : get players (lit "ID" ++ s) = Ok VUndefined
                 \/ get players (lit "ID" ++ s) = Throw TypeError).
  { destruct players; try (apply get_by_player_key; exact I).
    left. cbn [get]. now rewrite (get_own_absent _ _ Hno). }
  destruct Hget as [-> | ->]; eexists; reflexivity.
Qed.

Lemma throws_bind {A B} (r : result A) (f : A -> result B) :
  (forall a, r = Ok a -> throws (f a)) -> throws (rbind r f).
Proof.
  intro H. destruct r as [a|err]; simpl.
  - now apply H.
  - now exists err.
Qed.

Lemma map_throwing_throws {A B} (f : A -> result B) (l : list A) (x : A) :
  In x l -> throws (f x) -> throws (map_throwing f l).
Proof.
  intros Hin [err Hx]. induction l as [|y l IH]; [contradiction|].
  simpl. destruct Hin as [-> | Hin].
  - rewrite Hx. now exists err.
  - apply throws_bind. intros b _. apply throws_bind. intros.
    exfalso. destruct (IH Hin) as [e He]. congruence.
Qed.

Lemma onIce_player_missing (json : value) (side : js_string) (players playerId : value) :
  path json [lit "teams"; side; lit "players"] = Ok players ->
  has_roster_entry players playerId = false ->
  throws (onIce_player json side playerId).
Proof.
  intros Hplayers Hno. unfold onIce_player. rewrite Hplayers. cbn [rbind].
  apply throws_bind. intros key Hkey.
  apply (missing_entry_throws players playerId key); assumption.
Qed.



Example formatJson_fixture :
  formatJson boxscore_fixture
  = Ok (boxscore_view
          (VString (lit "Toronto Maple Leafs"))
          [ VObject [(lit "fullName", VString (lit "Auston Matthews"));
                     (lit "number", VString (lit "34"))];
            VObject [(lit "fullName", VString (lit "John Tavares"));
                     (lit "number", VString (lit "91"))] ]
          (VString (lit "Montreal Canadiens"))
          [ VObject [(lit "fullName", VString (lit "Shea Weber"));
                     (lit "number", VString (lit "6"))];
            VObject [(lit "fullName", VString (lit "Joel Armia"));
                     (lit "number", VString (lit "40"))] ]).
Proof. vm_compute. reflexivity. Qed.

Example formatJson_missing_player :
  formatJson boxscore_missing_player = Throw TypeError.
Proof. vm_compute. reflexivity. Qed.

(** So does an entry of the roster that has no person record. *)
Example formatJson_entry_without_person :
  formatJson
    (VObject
       [(lit "teams",
         VObject
           [ (lit "home",
              VObject [ (lit "team", VObject [(lit "name", VString (lit "Toronto Maple Leafs"))]);
                        (lit "players", VObject [(lit "ID8479318", VObject [])]);
                        (lit "onIce", VArray [VNumber 8479318]) ]);
             (lit "away", side_fixture "Montreal Canadiens" [] []) ])])
  = Throw TypeError.
Proof. vm_compute. reflexivity. Qed.

Lemma throws_bind_left {A B} (r : result A) (f : A -> result B) :
  throws r -> throws (rbind r f).
Proof. intros [err ->]. now exists err. Qed.

Lemma array_map_throws (f : value -> result value) (l : list value) (x : value) :
  In x l -> throws (f x) -> throws (array_map (VArray l) f).
Proof.
  intros Hin Hx. unfold array_map. apply throws_bind_left.
  now apply (map_throwing_throws f l x).
Qed.

Lemma formatJson_missing_entry
    (json : value) (side : js_string) (ids : list value) (players playerId : value) :
  side = lit "home" \/ side = lit "away" ->
  path json [lit "teams"; side; lit "onIce"] = Ok (VArray ids) ->
  In playerId ids ->
  path json [lit "teams"; side; lit "players"] = Ok players ->
  has_roster_entry players playerId = false ->
  throws (formatJson json).
Proof.
  intros Hside Hids Hin Hplayers Hno.
  assert (Hmap : throws (array_map (VArray ids) (onIce_player json side))).
  { apply (array_map_throws _ ids playerId Hin).
    now apply (onIce_player_missing json side players playerId). }
  unfold formatJson.
  apply throws_bind. intros home_name _.
  apply throws_bind. intros away_name _.
  apply throws_bind. intros home_ids Hhome.
  destruct Hside as [-> | ->].
  - rewrite Hids in Hhome. injection Hhome as <-.
    now apply throws_bind_left.
  - apply throws_bind. intros home_onIce _.
    apply throws_bind. intros away_ids Haway.
    rewrite Hids in Haway. injection Haway as <-.
    now apply throws_bind_left.
Qed.

Section Formatter.

Variable JSON_parse : js_string -> result value.

(** C8. When some id of the on-ice list of a side has no entry under
    [ID]+id in the roster of that side, [formatJson] throws; the [end]
    listener of [getGameStats] then logs the error and rejects with it,
    so that the promise of [getGameStats] is rejected with that very
    error whenever the response parses to such a boxscore. *)
Theorem missing_player_rejects
    (json : value) (side : js_string) (ids : list value) (players playerId : value) :
  side = lit "home" \/ side = lit "away" ->
  path json [lit "teams"; side; lit "onIce"] = Ok (VArray ids) ->
  In playerId ids ->
  path json [lit "teams"; side; lit "players"] = Ok players ->
  has_roster_entry players playerId = false ->
  exists err,
    formatJson json = Throw err
    /\ (forall body, JSON_parse body = Ok json ->
          on_boxscore_end JSON_parse body
          = (trigger (console_log (LogValue json)) ;;
             trigger (console_log (LogError err)) ;;
             Ret (Throw err)))
    /\ (forall (h : env) (gameID : value) (url : js_string),
          boxscore_url gameID = Ok url ->
          JSON_parse (h _ (httpClient_get url)) = Ok json ->
          outcome h (getGameStats JSON_parse gameID) = Throw err).
Proof.
  intros Hside Hids Hin Hplayers Hno.
  destruct (formatJson_missing_entry json side ids players playerId
              Hside Hids Hin Hplayers Hno) as [err Herr].
  exists err. split; [exact Herr|].
  assert (Hend : forall body, JSON_parse body = Ok json ->
            on_boxscore_end JSON_parse body
            = (trigger (console_log (LogValue json)) ;;
               trigger (console_log (LogError err)) ;;
               Ret (Throw err))).
  { intros body Hparse. unfold on_boxscore_end. now rewrite Hparse, Herr. }
  split; [exact Hend|].
  intros h gameID url Hurl Hparse.
  unfold getGameStats. rewrite Hurl, bind_trigger.
  rewrite (proj2 (run_vis h _ _)), (Hend _ Hparse).
  reflexivity.
Qed.

End Formatter.

(** ** The upload handler *)

Section Upload.

Variable JSON_parse : js_string -> result value.
Variable bucket_name : js_string.

(** C7. A request without a file gets status 400 and the text
    [No file uploaded.]; these two calls on the response are all the
    handler does, whatever the environment: nothing is written to the
    object store, the OCR is not called, no request goes to the stats
    API. *)
Theorem missing_file_is_rejected (h : env) :
  let t := trace h (upload JSON_parse bucket_name {| req_file := None |}) in
  t = [Call (res_status 400); Call (res_send (VString (lit "No file uploaded.")))]
  /\ existsb is_store_call t = false
  /\ existsb is_ocr_call t = false
  /\ existsb is_stats_call t = false.
Proof. repeat split. Qed.

(** C5, as the code has it. When the write finishes and the OCR
    returns no annotation, the handler answers 404 with the error
    object, resolves no team and calls no stats API, but it does not
    stop there: it goes on to call [res.status(200).json(teamIds)]
    with [teamIds] still undefined. *)
Theorem no_text_falls_through (h : env) (f : file) :
  h _ (blob_write (originalname f) (buffer f)) = Finish ->
  h _ (textDetection (publicUrl bucket_name (originalname f))) = Ok [] ->
  let t := trace h (upload JSON_parse bucket_name {| req_file := Some f |}) in
  t = [ Call (blob_write (originalname f) (buffer f));
        Call (textDetection (publicUrl bucket_name (originalname f)));
        Call (console_log (LogDetections []));
        Call (res_status 404);
        Call (res_send (VObject [(lit "error", VString (lit "No text in image"))]));
        Call (res_status 200);
        Call (res_json VUndefined) ]
  /\ existsb is_stats_call t = false.
Proof.
  intros Hwrite Hocr t. subst t.
  unfold upload. cbn [req_file]. rewrite bind_trigger.
  rewrite (proj1 (run_vis h _ _)), Hwrite.
  unfold on_finish. rewrite bind_trigger.
  rewrite (proj1 (run_vis h _ _)), Hocr.
  split; reflexivity.
Qed.

End Upload.

(** ** The properties on the fixtures *)

Ltac listed := repeat first [left; reflexivity | right].

Ltac not_listed :=
  let H := fresh in
  intro H; vm_compute in H; repeat (destruct H as [H | H]; [discriminate H|]);
  exact H.

Lemma non_key_token_witness :
  push_team [VNumber 6] (lit "toString") = [VNumber 6]
  /\ collect_teams ([lit "BOS"] ++ lit "toString" :: [lit "VGK"])
     = collect_teams ([lit "BOS"] ++ [lit "VGK"]).
Proof.
  apply (non_key_token_yields_no_team (lit "toString")). not_listed.
Defined.

Lemma no_team_token_witness :
  outcome (sample_env [] silent)
    (getTeamIdsFromText (parse_as VNull) (lit "final score 3-2"))
  = Ok (VObject []).
Proof.
  apply (no_team_token_no_stats_call (parse_as VNull) (lit "final score 3-2")).
  intros word Hin. vm_compute in Hin.
  destruct Hin as [<- | [<- | [<- | []]]]; not_listed.
Defined.

Lemma first_team_token_witness :
  collect_teams (split (lit "MTL at TOR"))
  = get_own teamNameMap (lit "MTL") :: collect_teams [lit "at"; lit "TOR"]
  /\ getTeamIdsFromText (parse_as VNull) (lit "MTL at TOR")
     = (trigger (console_log (LogWords (split (lit "MTL at TOR")))) ;;
        getCurrentGame (parse_as VNull) (get_own teamNameMap (lit "MTL")))
  /\ exists url,
       schedule_url (get_own teamNameMap (lit "MTL")) = Ok url
       /\ forall h : env, exists rest,
            filter is_stats_call
              (trace h (getTeamIdsFromText (parse_as VNull) (lit "MTL at TOR")))
            = Call (httpClient_get url) :: rest.
Proof.
  apply (first_team_token_is_queried (parse_as VNull) (lit "MTL at TOR")
           [] (lit "MTL") [lit "at"; lit "TOR"]).
  - reflexivity.
  - intros word [].
  - vm_compute. listed.
Defined.



Lemma missing_player_witness :
  exists err,
    formatJson boxscore_missing_player = Throw err
    /\ (forall body, parse_as boxscore_missing_player body = Ok boxscore_missing_player ->
          on_boxscore_end (parse_as boxscore_missing_player) body
          = (trigger (console_log (LogValue boxscore_missing_player)) ;;
             trigger (console_log (LogError err)) ;;
             Ret (Throw err)))
    /\ (forall (h : env) (gameID : value) (url : js_string),
          boxscore_url gameID = Ok url ->
          parse_as boxscore_missing_player (h _ (httpClient_get url))
          = Ok boxscore_missing_player ->
          outcome h (getGameStats (parse_as boxscore_missing_player) gameID)
          = Throw err).
Proof.
  apply (missing_player_rejects (parse_as boxscore_missing_player)
           boxscore_missing_player (lit "home")
           [VNumber 8479318; VNumber 8475166]
           (VObject [player_fixture 8479318 "Auston Matthews" "34"])
           (VNumber 8475166)).
  - left. reflexivity.
  - reflexivity.
  - right. left. reflexivity.
  - reflexivity.
  - reflexivity.
Defined.

Lemma no_text_falls_through_witness :
  let f := {| originalname := lit "rink.png"; buffer := [137; 80; 78; 71]%N |} in
  let t := trace (sample_env [] silent)
             (upload (parse_as VNull) (lit "uploads") {| req_file := Some f |}) in
  t = [ Call (blob_write (originalname f) (buffer f));
        Call (textDetection (publicUrl (lit "uploads") (originalname f)));
        Call (console_log (LogDetections []));
        Call (res_status 404);
        Call (res_send (VObject [(lit "error", VString (lit "No text in image"))]));
        Call (res_status 200);
        Call (res_json VUndefined) ]
  /\ existsb is_stats_call t = false.
Proof.
  apply (no_text_falls_through (parse_as VNull) (lit "uploads") (sample_env [] silent)
           {| originalname := lit "rink.png"; buffer := [137; 80; 78; 71]%N |});
    reflexivity.
Defined.

(** ** Where the properties stop *)









(** ** The pipeline on the fixtures, end to end *)

Example white_space_characters :
  map is_white_space [9; 10; 13; 32; 160; 8201; 12288; 65279; 65; 95; 8203]%N
  = [true; true; true; true; true; true; true; true; false; false; false].
Proof. reflexivity. Qed.

(** An array whose only element is the string [Live] also compares
    equal to [Live] under [==]. *)
Example equals_Live_converts_arrays :
  equals_Live (VArray [VString (lit "Live")]) = Ok true
  /\ equals_Live (VArray [VString (lit "Live"); VNull]) = Ok false
  /\ equals_Live (VNumber 1) = Ok false.
Proof. repeat split. Qed.

(** A picture that shows [TOR 2 MTL 1]: the team is Toronto, its next
    game is live, the view is that of the boxscore of that game. *)
Example upload_of_a_scoreboard :
  let f := {| originalname := lit "rink.png"; buffer := [137; 80; 78; 71]%N |} in
  let text := lit "TOR 2 MTL 1" in
  run (sample_env [{| description := text |}] sample_api)
    (upload sample_parse (lit "uploads") {| req_file := Some f |})
  = ([ Call (blob_write (lit "rink.png") [137; 80; 78; 71]%N);
       Call (textDetection (lit "https://storage.googleapis.com/uploads/rink.png"));
       Call (console_log (LogDetections [{| description := text |}]));
       Call (console_log (LogWords [lit "TOR"; lit "2"; lit "MTL"; lit "1"]));
       Call (httpClient_get
               (lit "https://statsapi.web.nhl.com/api/v1/teams/10?expand=team.schedule.next&&expand=team.schedule.previous"));
       Call (console_log (LogValue (VNumber 2019020500)));
       Call (httpClient_get
               (lit "https://statsapi.web.nhl.com/api/v1/game/2019020500/boxscore"));
       Call (console_log (LogValue boxscore_fixture));
       Call (res_status 200);
       Call (res_json
               (boxscore_view
                  (VString (lit "Toronto Maple Leafs"))
                  [ VObject [(lit "fullName", VString (lit "Auston Matthews"));
                             (lit "number", VString (lit "34"))];
                    VObject [(lit "fullName", VString (lit "John Tavares"));
                             (lit "number", VString (lit "91"))] ]
                  (VString (lit "Montreal Canadiens"))
                  [ VObject [(lit "fullName", VString (lit "Shea Weber"));
                             (lit "number", VString (lit "6"))];
                    VObject [(lit "fullName", VString (lit "Joel Armia"));
                             (lit "number", VString (lit "40"))] ])) ],
     Ok tt).
Proof. vm_compute. reflexivity. Qed.

(** A picture without any team abbreviation: the answer is the empty
    object, and no request leaves for the stats API. *)
Example upload_without_team :
  let f := {| originalname := lit "menu.png"; buffer := [] |} in
  let text := lit "soup of the day" in
  run (sample_env [{| description := text |}] sample_api)
    (upload sample_parse (lit "uploads") {| req_file := Some f |})
  = ([ Call (blob_write (lit "menu.png") []);
       Call (textDetection (lit "https://storage.googleapis.com/uploads/menu.png"));
       Call (console_log (LogDetections [{| description := text |}]));
       Call (console_log (LogWords [lit "soup"; lit "of"; lit "the"; lit "day"]));
       Call (res_status 200);
       Call (res_json (VObject [])) ],
     Ok tt).
Proof. vm_compute. reflexivity. Qed.

(** * Further properties of the code *)

(** ** The words of a text *)

Lemma split_from_token_chars (s : js_string) :
  forall (in_sep : bool) (piece : js_string),
    forallb is_token_char piece = true ->
    Forall (fun word => forallb is_token_char word = true)
      (split_from in_sep piece s).
Proof.
  induction s as [|c rest IH]; intros in_sep piece Hpiece; simpl.
  - now constructor.
  - destruct (is_white_space c) eqn:Hc.
    + destruct in_sep; [|constructor; [exact Hpiece|]]; now apply IH.
    + apply IH. rewrite forallb_app, Hpiece. simpl.
      unfold is_token_char. now rewrite Hc.
Qed.

Lemma split_from_concat (s : js_string) :
  forall (in_sep : bool) (piece : js_string),
    (in_sep = true -> piece = []) ->
    List.concat (split_from in_sep piece s) = piece ++ filter is_token_char s.
Proof.
  induction s as [|c rest IH]; intros in_sep piece Hsep; simpl.
  - reflexivity.
  - unfold is_token_char at 1. destruct (is_white_space c) eqn:Hc; simpl.
    + destruct in_sep.
      * rewrite (Hsep eq_refl). now apply IH.
      * simpl. now rewrite (IH true []).
    + rewrite (IH false (piece ++ [c])) by discriminate.
      now rewrite <- app_assoc.
Qed.

(** X1. [description.split(/[\s\n]+/)] loses nothing but separators:
    no word contains a white-space character, and the words put end to
    end are the text with its white-space characters removed. *)
Theorem split_keeps_the_token_characters (description : js_string) :
  Forall (fun word => forallb is_token_char word = true) (split description)
  /\ List.concat (split description) = filter is_token_char description.
Proof.
  split.
  - now apply split_from_token_chars.
  - unfold split. now rewrite split_from_concat.
Qed.

Lemma split_from_not_nil (s : js_string) (in_sep : bool) (piece : js_string) :
  split_from in_sep piece s <> [].
Proof.
  revert in_sep piece. induction s as [|c rest IH]; intros in_sep piece; simpl.
  - discriminate.
  - destruct (is_white_space c); [destruct in_sep|]; try apply IH. discriminate.
Qed.

Lemma removelast_cons {A} (x : A) (l : list A) :
  l <> [] -> removelast (x :: l) = x :: removelast l.
Proof. destruct l; [contradiction|reflexivity]. Qed.

(** After a separator, or with a piece under way, every word but the
    last is non-empty. *)
Lemma split_from_inner_words (s : js_string) :
  forall (in_sep : bool) (piece : js_string),
    (in_sep = true /\ piece = []) \/ (in_sep = false /\ piece <> []) ->
    Forall (fun word => word <> []) (removelast (split_from in_sep piece s)).
Proof.
  induction s as [|c rest IH]; intros in_sep piece Hstate; simpl.
  - constructor.
  - destruct (is_white_space c).
    + destruct Hstate as [[-> _] | [-> Hpiece]].
      * apply IH. now left.
      * rewrite removelast_cons by apply split_from_not_nil.
        constructor; [exact Hpiece|]. apply IH. now left.
    + apply IH. right. split; [reflexivity | now destruct piece].
Qed.

Lemma Forall_removelast_tl {A} (P : A -> Prop) (l : list A) :
  Forall P (removelast l) -> Forall P (removelast (tl l)).
Proof.
  destruct l as [|x [|y l]]; simpl; intro H; try constructor.
  now inversion H.
Qed.

(** X2. Only the first and the last word of [split] can be empty (the
    text then starts or ends with white space): a run of separators
    inside the text never yields an empty word. *)
Theorem split_inner_words_are_not_empty (description : js_string) :
  Forall (fun word => word <> []) (removelast (tl (split description))).
Proof.
  unfold split. destruct description as [|c rest]; simpl.
  - constructor.
  - destruct (is_white_space c).
    + apply split_from_inner_words. now left.
    + apply Forall_removelast_tl, split_from_inner_words.
      right. split; [reflexivity | discriminate].
Qed.

Example split_of_separators_only :
  split (lit "   ") = [[]; []] /\ split [] = [[]].
Proof. split; reflexivity. Qed.

Lemma collect_after_separator (s : js_string) :
  collect_teams (split_from true [] s) = collect_teams (split_from false [] s).
Proof.
  rewrite (split_from_pending s true []) by reflexivity.
  now rewrite (split_from_pending s false []) by discriminate.
Qed.

Lemma collect_split_from_app (c : code_unit) (a b : js_string) :
  is_white_space c = true ->
  forall (in_sep : bool) (piece : js_string),
    (in_sep = true -> piece = []) ->
    collect_teams (split_from in_sep piece (a ++ c :: b))
    = collect_teams (split_from in_sep piece a)
      ++ collect_teams (split_from false [] b).
Proof.
  intro Hc. induction a as [|x a IH]; intros in_sep piece Hsep;
    cbn [app split_from].
  - rewrite Hc. destruct in_sep.
    + rewrite (Hsep eq_refl). apply collect_after_separator.
    + rewrite collect_teams_cons, collect_after_separator.
      rewrite (collect_teams_cons piece []).
      now rewrite <- app_assoc.
  - destruct (is_white_space x).
    + destruct in_sep.
      * now apply IH.
      * rewrite !collect_teams_cons, <- app_assoc. f_equal. now apply IH.
    + apply IH. discriminate.
Qed.

(** X3. The teams of two texts joined by a white-space character are
    the teams of the first followed by those of the second. *)
Theorem team_ids_of_joined_texts (c : code_unit) (a b : js_string) :
  is_white_space c = true ->
  team_ids (a ++ c :: b) = team_ids a ++ team_ids b.
Proof.
  intro Hc. unfold team_ids, split.
  now apply collect_split_from_app.
Qed.

Lemma team_ids_of_joined_texts_witness :
  team_ids (lit "final: TOR 2" ++ 10%N :: lit "MTL 1")
  = team_ids (lit "final: TOR 2") ++ team_ids (lit "MTL 1").
Proof.
  apply (team_ids_of_joined_texts 10%N (lit "final: TOR 2") (lit "MTL 1")).
  reflexivity.
Defined.

(** Without a separator in between the teams can be lost: two
    abbreviations that touch form one word. *)
Example team_ids_of_touching_texts :
  team_ids (lit "TOR" ++ lit "MTL") = []
  /\ team_ids (lit "TOR") ++ team_ids (lit "MTL") = [VNumber 10; VNumber 8].
Proof. split; reflexivity. Qed.

(** ** The boxscore formatter, on every input *)

Lemma onIce_player_is_view (json : value) (side : js_string) (playerId out : value) :
  onIce_player json side playerId = Ok out -> is_player_view out = true.
Proof.
  unfold onIce_player.
  destruct (path json [lit "teams"; side; lit "players"]) as [players|]; [|discriminate].
  cbn [rbind]. destruct (concat (lit "ID") playerId) as [key|]; [|discriminate].
  cbn [rbind]. destruct (get players key) as [entry|]; [|discriminate].
  cbn [rbind]. destruct (get entry (lit "person")) as [player|]; [|discriminate].
  cbn [rbind]. destruct (get player (lit "fullName")) as [fullName|]; [|discriminate].
  cbn [rbind]. destruct (get player (lit "primaryNumber")) as [number|]; [|discriminate].
  cbn [rbind]. intro H. injection H as <-. reflexivity.
Qed.

Lemma map_throwing_views (f : value -> result value) (l outs : list value) :
  (forall x out, f x = Ok out -> is_player_view out = true) ->
  map_throwing f l = Ok outs ->
  forallb is_player_view outs = true /\ List.length outs = List.length l.
Proof.
  intro Hf. revert outs. induction l as [|x l IH]; intros outs; simpl.
  - intro H. injection H as <-. now split.
  - destruct (f x) as [y|] eqn:Hx; [|discriminate]. cbn [rbind].
    destruct (map_throwing f l) as [ys|]; [|discriminate]. cbn [rbind].
    intro H. injection H as <-. destruct (IH ys eq_refl) as [Hviews Hlen].
    simpl. rewrite (Hf x y Hx), Hviews, Hlen. now split.
Qed.

Lemma array_map_views (json : value) (side : js_string) (ids out : value) :
  array_map ids (onIce_player json side) = Ok out ->
  exists l outs,
    ids = VArray l /\ out = VArray outs
    /\ forallb is_player_view outs = true
    /\ List.length outs = List.length l.
Proof.
  destruct ids; try discriminate. unfold array_map.
  destruct (map_throwing (onIce_player json side) elems) as [outs|] eqn:Hmap;
    [|discriminate].
  cbn [rbind]. intro H. injection H as <-.
  destruct (map_throwing_views (onIce_player json side) elems outs) as [Hviews Hlen].
  - apply onIce_player_is_view.
  - exact Hmap.
  - now exists elems, outs.
Qed.

(** The steps of [formatJson], one by one, when it returns. *)
Ltac formatJson_steps Hhome Haway :=
  unfold formatJson;
  destruct (path _ [lit "teams"; lit "home"; lit "team"; lit "name"])
    as [?home_name|]; [|discriminate]; cbn [rbind];
  destruct (path _ [lit "teams"; lit "away"; lit "team"; lit "name"])
    as [?away_name|]; [|discriminate]; cbn [rbind];
  destruct (path _ [lit "teams"; lit "home"; lit "onIce"])
    as [?home_list|]; [|discriminate]; cbn [rbind];
  destruct (array_map _ (onIce_player _ (lit "home")))
    as [?home_out|] eqn:Hhome; [|discriminate]; cbn [rbind];
  destruct (path _ [lit "teams"; lit "away"; lit "onIce"])
    as [?away_list|]; [|discriminate]; cbn [rbind];
  destruct (array_map _ (onIce_player _ (lit "away")))
    as [?away_out|] eqn:Haway; [|discriminate]; cbn [rbind].

Lemma formatJson_shape (json view : value) :
  formatJson json = Ok view -> is_boxscore_view view = true.
Proof.
  formatJson_steps Hhome Haway.
  intro H. injection H as <-.
  destruct (array_map_views _ _ _ _ Hhome) as [hids [houts [_ [-> [Hhv _]]]]].
  destruct (array_map_views _ _ _ _ Haway) as [aids [aouts [_ [-> [Hav _]]]]].
  unfold is_boxscore_view, is_side_view. rewrite !eqb_refl, Hhv, Hav. reflexivity.
Qed.

(** X4. [formatJson] is all or nothing. Whatever the response, when it
    returns at all it returns a complete view: exactly the keys of the
    view, both on-ice lists of the response are arrays, and each side of
    the view has as many entries as its on-ice list. *)
Theorem formatJson_returns_complete_views (json view : value) :
  formatJson json = Ok view ->
  is_boxscore_view view = true
  /\ exists home_name home_onIce away_name away_onIce home_ids away_ids,
       view = boxscore_view home_name home_onIce away_name away_onIce
       /\ path json [lit "teams"; lit "home"; lit "onIce"] = Ok (VArray home_ids)
       /\ path json [lit "teams"; lit "away"; lit "onIce"] = Ok (VArray away_ids)
       /\ List.length home_onIce = List.length home_ids
       /\ List.length away_onIce = List.length away_ids.
Proof.
  intro Hview. split; [now apply (formatJson_shape json)|].
  revert Hview. formatJson_steps Hhome Haway.
  intro H. injection H as <-.
  destruct (array_map_views _ _ _ _ Hhome) as [hids [houts [-> [-> [_ Hhl]]]]].
  destruct (array_map_views _ _ _ _ Haway) as [aids [aouts [-> [-> [_ Hal]]]]].
  exists home_name, houts, away_name, aouts, hids, aids. repeat split; assumption.
Qed.

(** The view of [boxscore_fixture]. *)
Definition view_fixture : value :=
  boxscore_view
    (VString (lit "Toronto Maple Leafs"))
    [ VObject [(lit "fullName", VString (lit "Auston Matthews"));
               (lit "number", VString (lit "34"))];
      VObject [(lit "fullName", VString (lit "John Tavares"));
               (lit "number", VString (lit "91"))] ]
    (VString (lit "Montreal Canadiens"))
    [ VObject [(lit "fullName", VString (lit "Shea Weber"));
               (lit "number", VString (lit "6"))];
      VObject [(lit "fullName", VString (lit "Joel Armia"));
               (lit "number", VString (lit "40"))] ].

Lemma formatJson_returns_complete_views_witness :
  is_boxscore_view view_fixture = true.
Proof.
  apply (formatJson_returns_complete_views boxscore_fixture view_fixture).
  vm_compute. reflexivity.
Defined.

(** ** Runs of composed programs *)

Lemma run_bind {A B} (h : env) (p : prog A) (f : A -> prog B) :
  trace h (bind p f) = trace h p ++ trace h (f (outcome h p))
  /\ outcome h (bind p f) = outcome h (f (outcome h p)).
Proof.
  induction p as [a | X e k IH].
  - now split.
  - cbn [bind]. destruct (run_vis h e (fun x => bind (k x) f)) as [-> ->].
    destruct (run_vis h e k) as [-> ->].
    destruct (IH (h X e)) as [-> ->]. now split.
Qed.

Lemma run_log {A} (h : env) (m : logged) (p : prog A) :
  trace h (trigger (console_log m) ;; p) = Call (console_log m) :: trace h p
  /\ outcome h (trigger (console_log m) ;; p) = outcome h p.
Proof. rewrite bind_trigger. apply run_vis. Qed.

(** The calls to the console. *)
Definition is_log_call (c : call) : bool :=
  match c with
  | Call (console_log _) => true
  | _ => false
  end.

Ltac short_run :=
  repeat split; simpl; try reflexivity; try lia;
  repeat (constructor; auto).

Section Settlement.

Variable JSON_parse : js_string -> result value.

(** What the promise of [getGameStats] settles to when the environment
    [h] answers: the formatter applied to the parsed body. *)
Definition boxscore_settlement (h : env) (gameID : value) : result value :=
  let? url := boxscore_url gameID in
  let? json := JSON_parse (h _ (httpClient_get url)) in
  formatJson json.

(** What the promise of [getCurrentGame] settles to. *)
Definition schedule_settlement (h : env) (teamID : value) : result value :=
  let? url := schedule_url teamID in
  let? json := JSON_parse (h _ (httpClient_get url)) in
  let? gameId := select_gameId json in
  boxscore_settlement h gameId.

Lemma getGameStats_run (h : env) (gameID : value) :
  outcome h (getGameStats JSON_parse gameID) = boxscore_settlement h gameID
  /\ Forall (fun c => is_log_call c = true \/ is_stats_call c = true)
       (trace h (getGameStats JSON_parse gameID))
  /\ List.length (filter is_stats_call (trace h (getGameStats JSON_parse gameID))) <= 1.
Proof.
  unfold getGameStats, boxscore_settlement.
  destruct (boxscore_url gameID) as [url|err]; cbn [rbind].
  - rewrite bind_trigger. destruct (run_vis h (httpClient_get url)
      (fun body => on_boxscore_end JSON_parse body)) as [-> ->].
    unfold on_boxscore_end.
    destruct (JSON_parse (h _ (httpClient_get url))) as [json|err]; cbn [rbind].
    + destruct (run_log h (LogValue json)
        (match formatJson json with
         | Ok view => Ret (Ok view)
         | Throw err => trigger (console_log (LogError err)) ;; Ret (Throw err)
         end)) as [-> ->].
      destruct (formatJson json) as [view|err].
      * short_run.
      * short_run.
    + short_run.
  - short_run.
Qed.

(** X5. Whatever the environment answers, the promise of [getGameStats]
    settles to the formatter's result on the parsed body of the boxscore
    response: it is rejected with the error of the first step that fails
    (address, parsing, formatting), it resolves only with a complete
    view, and on the way at most one request is sent. *)
Theorem getGameStats_settles (h : env) (gameID : value) :
  outcome h (getGameStats JSON_parse gameID) = boxscore_settlement h gameID
  /\ (forall view, outcome h (getGameStats JSON_parse gameID) = Ok view ->
        is_boxscore_view view = true)
  /\ List.length (filter is_stats_call (trace h (getGameStats JSON_parse gameID))) <= 1.
Proof.
  destruct (getGameStats_run h gameID) as [Hout [_ Hcount]].
  split; [exact Hout|]. split; [|exact Hcount].
  intro view. rewrite Hout. unfold boxscore_settlement.
  destruct (boxscore_url gameID) as [url|]; [|discriminate]. cbn [rbind].
  destruct (JSON_parse (h _ (httpClient_get url))) as [json|]; [|discriminate].
  cbn [rbind]. apply formatJson_shape.
Qed.

Lemma getCurrentGame_run (h : env) (teamID : value) :
  outcome h (getCurrentGame JSON_parse teamID) = schedule_settlement h teamID
  /\ Forall (fun c => is_log_call c = true \/ is_stats_call c = true)
       (trace h (getCurrentGame JSON_parse teamID))
  /\ List.length (filter is_stats_call (trace h (getCurrentGame JSON_parse teamID))) <= 2.
Proof.
  unfold getCurrentGame, schedule_settlement.
  destruct (schedule_url teamID) as [url|err]; cbn [rbind].
  - rewrite bind_trigger. destruct (run_vis h (httpClient_get url)
      (fun body => on_schedule_end JSON_parse body)) as [-> ->].
    unfold on_schedule_end.
    destruct (JSON_parse (h _ (httpClient_get url))) as [json|err]; cbn [rbind].
    + destruct (select_gameId json) as [gameId|err]; cbn [rbind].
      * destruct (run_log h (LogValue gameId)
          (settled <- getGameStats JSON_parse gameId ;; relay settled)) as [-> ->].
        destruct (run_bind h (getGameStats JSON_parse gameId)
                    (fun settled => relay settled)) as [-> ->].
        destruct (getGameStats_run h gameId) as [-> [Hcalls Hcount]].
        assert (Hrelay : forall r,
                  outcome h (relay r) = r
                  /\ Forall (fun c => is_log_call c = true \/ is_stats_call c = true)
                       (trace h (relay r))
                  /\ filter is_stats_call (trace h (relay r)) = []).
        { intros [v|e]; short_run. }
        destruct (Hrelay (boxscore_settlement h gameId)) as [-> [Hr Hnone]].
        repeat split.
        -- constructor; [now right|]. constructor; [now left|].
           apply Forall_app. now split.
        -- cbn [filter is_stats_call List.length].
           rewrite filter_app, Hnone, app_nil_r. lia.
      * short_run.
    + short_run.
  - short_run.
Qed.

Lemma schedule_settlement_view (h : env) (teamID view : value) :
  schedule_settlement h teamID = Ok view -> is_boxscore_view view = true.
Proof.
  unfold schedule_settlement, boxscore_settlement.
  destruct (schedule_url teamID) as [url|]; [|discriminate]. cbn [rbind].
  destruct (JSON_parse (h _ (httpClient_get url))) as [json|]; [|discriminate].
  cbn [rbind]. destruct (select_gameId json) as [gameId|]; [|discriminate].
  cbn [rbind]. destruct (boxscore_url gameId) as [url'|]; [|discriminate].
  cbn [rbind]. destruct (JSON_parse (h _ (httpClient_get url'))) as [json'|];
    [|discriminate].
  cbn [rbind]. apply formatJson_shape.
Qed.

(** X6. The promise of [getCurrentGame] settles to what [getGameStats]
    settles to on the game selected from the parsed schedule response:
    an error of the schedule request (no address, body that does not
    parse, field missing) or of the boxscore request rejects it with
    that same error, and it resolves only with the view the formatter
    made. *)
Theorem getCurrentGame_settles (h : env) (teamID : value) :
  outcome h (getCurrentGame JSON_parse teamID) = schedule_settlement h teamID
  /\ forall view, outcome h (getCurrentGame JSON_parse teamID) = Ok view ->
       is_boxscore_view view = true.
Proof.
  destruct (getCurrentGame_run h teamID) as [Hout _].
  split; [exact Hout|].
  intros view. rewrite Hout. apply schedule_settlement_view.
Qed.

(** X7. What [getTeamIdsFromText] does and never does, on every text and
    under every environment: it only logs and sends requests to the stats
    API, at most two of them; it never writes to the object store, calls
    the OCR, touches the response or calls [next]; and when it resolves,
    it resolves with the empty object or with a complete view. *)
Theorem getTeamIdsFromText_footprint (h : env) (description : js_string) :
  let t := trace h (getTeamIdsFromText JSON_parse description) in
  Forall (fun c => is_log_call c = true \/ is_stats_call c = true) t
  /\ List.length (filter is_stats_call t) <= 2
  /\ forall v, outcome h (getTeamIdsFromText JSON_parse description) = Ok v ->
       v = VObject [] \/ is_boxscore_view v = true.
Proof.
  unfold getTeamIdsFromText. cbv zeta.
  destruct (run_log h (LogWords (split description))
    (match collect_teams (split description) with
     | [] => Ret (Ok (VObject []))
     | first :: _ => getCurrentGame JSON_parse first
     end)) as [-> ->].
  destruct (collect_teams (split description)) as [|first rest].
  - split; [|split].
    + repeat constructor.
    + simpl. lia.
    + intros v H. injection H as <-. now left.
  - destruct (getCurrentGame_run h first) as [Hout [Hcalls Hcount]].
    repeat split.
    + constructor; [now left|exact Hcalls].
    + cbn [filter is_log_call is_stats_call]. exact Hcount.
    + intros v Hv. right. rewrite Hout in Hv.
      now apply (schedule_settlement_view h first).
Qed.

(** X8. No rejection goes unlogged: once [getCurrentGame] has its
    address, whenever its promise is rejected with [err] the last thing
    it did was [console.log(err)]. *)
Theorem getCurrentGame_logs_rejections
    (h : env) (teamID : value) (url : js_string) (err : js_error) :
  schedule_url teamID = Ok url ->
  outcome h (getCurrentGame JSON_parse teamID) = Throw err ->
  exists before,
    trace h (getCurrentGame JSON_parse teamID)
    = before ++ [Call (console_log (LogError err))].
Proof.
  intro Hurl. unfold getCurrentGame. rewrite Hurl, bind_trigger.
  destruct (run_vis h (httpClient_get url)
    (fun body => on_schedule_end JSON_parse body)) as [-> ->].
  unfold on_schedule_end.
  destruct (let? json := JSON_parse (h _ (httpClient_get url)) in select_gameId json)
    as [gameId|err'].
  - destruct (run_log h (LogValue gameId)
      (settled <- getGameStats JSON_parse gameId ;; relay settled)) as [-> ->].
    destruct (run_bind h (getGameStats JSON_parse gameId)
                (fun settled => relay settled)) as [-> ->].
    destruct (outcome h (getGameStats JSON_parse gameId)) as [view|err'].
    + discriminate.
    + intro H. injection H as <-.
      exists (Call (httpClient_get url) :: Call (console_log (LogValue gameId))
              :: trace h (getGameStats JSON_parse gameId)).
      reflexivity.
  - intro H. injection H as <-.
    exists [Call (httpClient_get url)]. reflexivity.
Qed.

End Settlement.

Lemma getCurrentGame_logs_rejections_witness :
  exists before,
    trace (sample_env [] silent) (getCurrentGame (parse_table []) (VNumber 10))
    = before ++ [Call (console_log (LogError SyntaxError))].
Proof.
  apply (getCurrentGame_logs_rejections (parse_table []) (sample_env [] silent)
           (VNumber 10)
           (lit "https://statsapi.web.nhl.com/api/v1/teams/10?expand=team.schedule.next&&expand=team.schedule.previous")
           SyntaxError);
    reflexivity.
Defined.

(** ** The upload handler, path by path *)

Definition is_next_call (c : call) : bool :=
  match c with
  | Call (next _) => true
  | _ => false
  end.

(** An environment in which the write to the object store fails. *)
Definition broken_store_env (err : js_error) : env :=
  fun X e =>
    match e in event X return X with
    | blob_write _ _ => WriteError err
    | other => sample_env [] silent _ other
    end.

Lemma quiet_calls (t : list call) :
  Forall (fun c => is_log_call c = true \/ is_stats_call c = true) t ->
  filter is_response_call t = [] /\ existsb is_next_call t = false.
Proof.
  induction 1 as [|c t Hc _ [IHr IHn]]; [now split|].
  destruct c as [X e]. destruct e; simpl in *;
    destruct Hc as [Hc | Hc]; try discriminate; now split.
Qed.

Section UploadPaths.

Variable JSON_parse : js_string -> result value.
Variable bucket_name : js_string.

Lemma pipeline_is_quiet (h : env) (description : js_string) :
  filter is_response_call (trace h (getTeamIdsFromText JSON_parse description)) = []
  /\ existsb is_next_call (trace h (getTeamIdsFromText JSON_parse description)) = false.
Proof.
  apply quiet_calls. unfold getTeamIdsFromText. cbv zeta.
  destruct (run_log h (LogWords (split description))
    (match collect_teams (split description) with
     | [] => Ret (Ok (VObject []))
     | first :: _ => getCurrentGame JSON_parse first
     end)) as [-> _].
  constructor; [now left|].
  destruct (collect_teams (split description)) as [|first rest].
  - constructor.
  - apply getCurrentGame_run.
Qed.

(** The run of the handler once the write has finished and the OCR has
    found text. *)
Lemma upload_with_text (h : env) (f : file) (first : annotation)
    (others : list annotation) :
  h _ (blob_write (originalname f) (buffer f)) = Finish ->
  h _ (textDetection (publicUrl bucket_name (originalname f))) = Ok (first :: others) ->
  let pipeline := getTeamIdsFromText JSON_parse (description first) in
  let answer :=
    match outcome h pipeline with
    | Ok teamIds => [Call (res_status 200); Call (res_json teamIds)]
    | Throw _ => []
    end in
  trace h (upload JSON_parse bucket_name {| req_file := Some f |})
  = Call (blob_write (originalname f) (buffer f))
    :: Call (textDetection (publicUrl bucket_name (originalname f)))
    :: Call (console_log (LogDetections (first :: others)))
    :: trace h pipeline ++ answer
  /\ outcome h (upload JSON_parse bucket_name {| req_file := Some f |})
     = match outcome h pipeline with
       | Ok _ => Ok tt
       | Throw err => Throw err
       end.
Proof.
  intros Hwrite Hocr pipeline answer. subst pipeline answer.
  unfold upload. cbn [req_file]. rewrite bind_trigger.
  destruct (run_vis h (blob_write (originalname f) (buffer f))
    (fun ended => match ended with
                  | WriteError err => trigger (next err) ;; Ret (Ok tt)
                  | Finish => on_finish JSON_parse bucket_name (originalname f)
                  end)) as [-> ->].
  rewrite Hwrite. unfold on_finish. rewrite bind_trigger.
  rewrite (proj1 (run_vis h _ _)), (proj2 (run_vis h _ _)), Hocr.
  rewrite (proj1 (run_log h _ _)), (proj2 (run_log h _ _)).
  rewrite (proj1 (run_bind h _ _)), (proj2 (run_bind h _ _)).
  destruct (outcome h (getTeamIdsFromText JSON_parse (description first)));
    split; reflexivity.
Qed.

(** X9. When the write finishes, the OCR finds text and the promise of
    [getTeamIdsFromText] on the first annotation resolves with [teamIds],
    the handler answers exactly once, after everything else, with status
    200 and [teamIds] as JSON; the other annotations are not read. *)
Theorem upload_answers_once (h : env) (f : file) (first : annotation)
    (others : list annotation) (teamIds : value) :
  h _ (blob_write (originalname f) (buffer f)) = Finish ->
  h _ (textDetection (publicUrl bucket_name (originalname f))) = Ok (first :: others) ->
  outcome h (getTeamIdsFromText JSON_parse (description first)) = Ok teamIds ->
  let t := trace h (upload JSON_parse bucket_name {| req_file := Some f |}) in
  filter is_response_call t = [Call (res_status 200); Call (res_json teamIds)]
  /\ (exists before, t = before ++ [Call (res_status 200); Call (res_json teamIds)])
  /\ existsb is_next_call t = false
  /\ outcome h (upload JSON_parse bucket_name {| req_file := Some f |}) = Ok tt.
Proof.
  intros Hwrite Hocr Hteams t. subst t.
  destruct (upload_with_text h f first others Hwrite Hocr) as [-> ->].
  rewrite Hteams.
  destruct (pipeline_is_quiet h (description first)) as [Hquiet Hnext].
  repeat split.
  - cbn [filter is_response_call]. now rewrite filter_app, Hquiet.
  - eexists (_ :: _ :: _ :: _). reflexivity.
  - cbn [existsb is_next_call]. rewrite existsb_app, Hnext. reflexivity.
Qed.

(** X10. When the promise of the handler's listener is rejected (the OCR
    failed, or the stats pipeline did), nothing has been sent on the
    response and [next] has not been called: the request is left
    without an answer. *)
Theorem upload_rejection_leaves_no_answer
    (h : env) (req : request) (err : js_error) :
  outcome h (upload JSON_parse bucket_name req) = Throw err ->
  let t := trace h (upload JSON_parse bucket_name req) in
  filter is_response_call t = [] /\ existsb is_next_call t = false.
Proof.
  destruct req as [[f|]]; [|discriminate].
  destruct (h _ (blob_write (originalname f) (buffer f))) eqn:Hwrite.
  - destruct (h _ (textDetection (publicUrl bucket_name (originalname f))))
      as [[|first others]|err'] eqn:Hocr.
    + intro H. exfalso. revert H. unfold upload. cbn [req_file].
      rewrite bind_trigger, (proj2 (run_vis h _ _)), Hwrite.
      unfold on_finish.
      rewrite bind_trigger, (proj2 (run_vis h _ _)), Hocr. discriminate.
    + destruct (upload_with_text h f first others Hwrite Hocr) as [-> ->].
      destruct (outcome h (getTeamIdsFromText JSON_parse (description first)));
        [discriminate|].
      intros _ t. subst t.
      destruct (pipeline_is_quiet h (description first)) as [Hquiet Hnext].
      split.
      * cbn [filter is_response_call]. now rewrite app_nil_r.
      * cbn [existsb is_next_call]. now rewrite app_nil_r.
    + intros _ t. subst t. unfold upload. cbn [req_file].
      rewrite bind_trigger, (proj1 (run_vis h _ _)), Hwrite.
      unfold on_finish.
      rewrite bind_trigger, (proj1 (run_vis h _ _)), Hocr. now split.
  - intro H. exfalso. revert H. unfold upload. cbn [req_file].
    rewrite bind_trigger, (proj2 (run_vis h _ _)), Hwrite. discriminate.
Qed.

(** X11. When the write to the object store fails with [err], the
    handler hands [err] to [next] and does nothing else: no OCR, no
    request to the stats API, no call on the response. *)
Theorem upload_write_error_goes_to_next (h : env) (f : file) (err : js_error) :
  h _ (blob_write (originalname f) (buffer f)) = WriteError err ->
  run h (upload JSON_parse bucket_name {| req_file := Some f |})
  = ([Call (blob_write (originalname f) (buffer f)); Call (next err)], Ok tt).
Proof.
  intro Hwrite.
  assert (Hrun : forall (A : Type) (p : prog A), run h p = (trace h p, outcome h p)).
  { intros A p. unfold trace, outcome. now destruct (run h p). }
  rewrite Hrun. unfold upload. cbn [req_file].
  rewrite bind_trigger, (proj1 (run_vis h _ _)), (proj2 (run_vis h _ _)), Hwrite.
  reflexivity.
Qed.

End UploadPaths.

Lemma upload_answers_once_witness :
  let f := {| originalname := lit "rink.png"; buffer := [137; 80; 78; 71]%N |} in
  let h := sample_env [{| description := lit "TOR 2 MTL 1" |}] sample_api in
  let t := trace h (upload sample_parse (lit "uploads") {| req_file := Some f |}) in
  filter is_response_call t = [Call (res_status 200); Call (res_json view_fixture)]
  /\ (exists before, t = before ++ [Call (res_status 200); Call (res_json view_fixture)])
  /\ existsb is_next_call t = false
  /\ outcome h (upload sample_parse (lit "uploads") {| req_file := Some f |}) = Ok tt.
Proof.
  apply (upload_answers_once sample_parse (lit "uploads")
           (sample_env [{| description := lit "TOR 2 MTL 1" |}] sample_api)
           {| originalname := lit "rink.png"; buffer := [137; 80; 78; 71]%N |}
           {| description := lit "TOR 2 MTL 1" |} [] view_fixture).
  - reflexivity.
  - reflexivity.
  - vm_compute. reflexivity.
Defined.

Lemma upload_rejection_leaves_no_answer_witness :
  let f := {| originalname := lit "rink.png"; buffer := [137; 80; 78; 71]%N |} in
  let h := sample_env [{| description := lit "TOR 2 MTL 1" |}] silent in
  let t := trace h (upload (parse_table []) (lit "uploads") {| req_file := Some f |}) in
  filter is_response_call t = [] /\ existsb is_next_call t = false.
Proof.
  apply (upload_rejection_leaves_no_answer (parse_table []) (lit "uploads")
           (sample_env [{| description := lit "TOR 2 MTL 1" |}] silent)
           {| req_file := Some {| originalname := lit "rink.png";
                                  buffer := [137; 80; 78; 71]%N |} |}
           SyntaxError).
  vm_compute. reflexivity.
Defined.

Lemma upload_write_error_goes_to_next_witness :
  let f := {| originalname := lit "rink.png"; buffer := [137; 80; 78; 71]%N |} in
  run (broken_store_env ServiceError)
    (upload sample_parse (lit "uploads") {| req_file := Some f |})
  = ([Call (blob_write (originalname f) (buffer f)); Call (next ServiceError)], Ok tt).
Proof.
  apply (upload_write_error_goes_to_next sample_parse (lit "uploads")
           (broken_store_env ServiceError)
           {| originalname := lit "rink.png"; buffer := [137; 80; 78; 71]%N |}
           ServiceError).
  reflexivity.
Defined.

(** ** The resolver: what it needs and what it asks for *)

Lemma get_ok_defined (v w : value) (k : js_string) :
  get v k = Ok w -> nullish v = false.
Proof. destruct v; simpl; intro H; try discriminate; reflexivity. Qed.

Lemma path_snoc (v : value) (ks : list js_string) (k : js_string) :
  path v (ks ++ [k]) = (let? w := path v ks in get w k).
Proof.
  revert v. induction ks as [|k' ks IH]; intro v; cbn [app path rbind].
  - destruct (get v k); reflexivity.
  - destruct (get v k') as [w|]; cbn [rbind]; [apply IH | reflexivity].
Qed.

(** X12. [getCurrentGame] selects a game only from a response that
    lists a next game with a status: a team with no next game makes the
    selection throw, even though it is then the previous game that would
    be selected. *)
Theorem select_gameId_needs_next_game (json gameId : value) :
  select_gameId json = Ok gameId ->
  exists nextGame status,
    path json next_game_path = Ok nextGame
    /\ nullish nextGame = false
    /\ get nextGame (lit "status") = Ok status
    /\ nullish status = false.
Proof.
  unfold select_gameId.
  destruct (path json next_game_path) as [nextGame|]; [|discriminate].
  cbn [rbind].
  destruct (get nextGame (lit "status")) as [status|] eqn:Hstatus; [|discriminate].
  cbn [rbind].
  destruct (get status (lit "abstractGameState")) as [state|] eqn:Hstate;
    [|discriminate].
  intros _. exists nextGame, status. split; [reflexivity|]. split; [|split].
  - now apply (get_ok_defined nextGame status (lit "status")).
  - exact Hstatus.
  - now apply (get_ok_defined status state (lit "abstractGameState")).
Qed.

Lemma select_gameId_needs_next_game_witness :
  exists nextGame status,
    path schedule_idle next_game_path = Ok nextGame
    /\ nullish nextGame = false
    /\ get nextGame (lit "status") = Ok status
    /\ nullish status = false.
Proof.
  apply (select_gameId_needs_next_game schedule_idle (VNumber 2019020480)).
  reflexivity.
Defined.

From Stdlib Require DecimalPos DecimalZ.

Lemma lit_inj (s t : string) : lit s = lit t -> s = t.
Proof.
  unfold lit. intro H.
  rewrite <- (string_of_list_ascii_of_string s), <- (string_of_list_ascii_of_string t).
  f_equal. revert H.
  generalize (list_ascii_of_string s) (list_ascii_of_string t).
  induction l as [|a l IH]; intros [|b l']; simpl; intro H;
    try discriminate; try reflexivity.
  injection H as Hab Hl.
  rewrite <- (ascii_N_embedding a), <- (ascii_N_embedding b), Hab.
  f_equal. now apply IH.
Qed.

(** [Number.isSafeInteger]: the integers every one of which is a
    number of its own. *)
Definition safe_integer (n : Z) : bool :=
  (Z.abs n <? 9007199254740992)%Z.

Lemma of_Z_inj (a b : Z) :
  safe_integer a = true -> safe_integer b = true -> of_Z a = of_Z b -> a = b.
Proof.
  unfold safe_integer, of_Z, decimal. intros -> -> H. apply lit_inj in H.
  assert (Hparse : forall n,
            NilZero.int_of_string (NilZero.string_of_int (Z.to_int n))
            = Some (Z.to_int n)).
  { intro n. apply NilZero.isi; destruct n; simpl; try discriminate;
      intro E; injection E as E;
      now apply (DecimalPos.Unsigned.to_uint_nonnil p). }
  pose proof (Hparse a) as Ha. rewrite H, Hparse in Ha.
  injection Ha as Ha. symmetry. now apply DecimalZ.to_int_inj.
Qed.

(** X13. Safe integers are written into the addresses and the roster
    keys without loss: two safe team numbers give the same schedule
    address, two safe game numbers the same boxscore address, two safe
    player numbers the same roster key, only when they are the same
    number. *)
Theorem numbers_keep_addresses_apart (a b : Z) :
  safe_integer a = true ->
  safe_integer b = true ->
  (schedule_url (VNumber a) = schedule_url (VNumber b) <-> a = b)
  /\ (boxscore_url (VNumber a) = boxscore_url (VNumber b) <-> a = b)
  /\ (player_key (VNumber a) = player_key (VNumber b) <-> a = b).
Proof.
  intros Ha Hb.
  unfold schedule_url, boxscore_url, player_key, concat.
  cbn [to_string rbind].
  repeat split; try (intros ->; reflexivity); intro H; injection H as H.
  - apply app_inv_tail in H. try apply app_inv_head in H. now apply of_Z_inj.
  - apply app_inv_tail in H. try apply app_inv_head in H. now apply of_Z_inj.
  - try apply app_inv_head in H. now apply of_Z_inj.
Qed.

Lemma numbers_keep_addresses_apart_witness :
  (schedule_url (VNumber 10) = schedule_url (VNumber 8) <-> 10 = 8)%Z
  /\ (boxscore_url (VNumber 10) = boxscore_url (VNumber 8) <-> 10 = 8)%Z
  /\ (player_key (VNumber 10) = player_key (VNumber 8) <-> 10 = 8)%Z.
Proof.
  apply (numbers_keep_addresses_apart 10 8); reflexivity.
Defined.

(** Beyond the safe integers two literals can be the same number, and
    numbers stop printing as their digits. *)
Example numbers_beyond_the_safe_integers :
  boxscore_url (VNumber 9007199254740993) = boxscore_url (VNumber 9007199254740992)
  /\ of_Z 1152921504606846976 = lit "1152921504606847000"
  /\ of_Z (10 ^ 21) = lit "1e+21"
  /\ of_Z 1180591620717411303424 = lit "1.1805916207174113e+21"
  /\ of_Z (- (2 ^ 1024)) = lit "-Infinity".
Proof. repeat split; vm_compute; reflexivity. Qed.

(** * The earlier revision of the pipeline ([src/unnamed/part_000])

    The same handler before the stats calls were awaited: the text is
    split on single spaces, the schedule request asks for the next game
    only, and the requests are sent without waiting for their answers.
    A request that is not awaited is modelled by its program, the call
    that sends it followed by its listeners: the call happens where the
    code makes it, the listeners run after the code that follows. *)

Module Earlier.

(** [description.split(" ")], line 139: a piece ends at every space. *)
Fixpoint words_from (piece : js_string) (s : js_string) : list js_string :=
  match s with
  | [] => [piece]
  | c :: rest =>
      if (c =? 32)%N then piece :: words_from [] rest
      else words_from (piece ++ [c]) rest
  end.

Definition words (description : js_string) : list js_string :=
  words_from [] description.

(** [teams] after the [forEach] of lines 141-145. *)
Definition teams_of (description : js_string) : list value :=
  collect_teams (words description).

(** [teams[0]]. *)
Definition first_team (teams : list value) : value :=
  match teams with
  | [] => VUndefined
  | first :: _ => first
  end.

(** The address of line 151. *)
Definition request_url (teamID : value) : result js_string :=
  let? prefix := concat (lit "https://statsapi.web.nhl.com/api/v1/teams/") teamID in
  Ok (prefix ++ lit "?expand=team.schedule.next").

(** Line 161: the [gamePk] of the next game, whatever its status. *)
Definition next_gameId (json : value) : result value :=
  path json (next_game_path ++ [lit "gamePk"]).

(** [pieces.join(sep)], the inverse the round trip is stated with. *)
Fixpoint join (sep : js_string) (pieces : list js_string) : js_string :=
  match pieces with
  | [] => []
  | piece :: rest =>
      match rest with
      | [] => piece
      | _ :: _ => piece ++ sep ++ join sep rest
      end
  end.

(** What a function that sends a request without awaiting it leaves
    behind: an exception thrown before the request was sent, or the
    program of the request, which starts with the call that sends it
    and goes on with its listeners. *)
Inductive sent : Type :=
| Thrown (err : js_error)
| Listening (listeners : prog unit).

(** What [getTeamIdsFromText] leaves behind: an exception, or the teams
    it returns and the program of the request it has sent. *)
Inductive returned : Type :=
| Raised (err : js_error)
| Returned (teams : list value) (listeners : prog unit).

(** The code [rest] that follows a call which sent a request without
    awaiting it: the request is sent first, [rest] runs next, and the
    listeners of the request run once [rest] is over. *)
Definition sent_before {A} (request : prog unit) (rest : prog A) : prog A :=
  match request with
  | Ret _ => rest
  | Vis e listeners => Vis e (fun answer => a <- rest ;; listeners answer ;; Ret a)
  end.

Section Revision.

Variable JSON_parse : js_string -> result value.
Variable bucket_name : js_string.

(** [getGameStats], lines 172-190. The result is [Throw] when building
    the address throws; otherwise it is the program of the listeners of
    the request, which only log. *)
Definition getGameStats (gameID : value) : sent :=
  match concat (lit "https://statsapi.web.nhl.com/api/v1/game/") gameID with
  | Throw err => Thrown err
  | Ok prefix =>
      Listening
        (body <- trigger (httpClient_get (prefix ++ lit "/boxscore")) ;;
         match JSON_parse body with
         | Ok json => trigger (console_log (LogValue json))
         | Throw err => trigger (console_log (LogError err))
         end)
  end.

(** The [end] listener of [getCurrentGame], lines 158-168. *)
Definition on_schedule_end (body : js_string) : prog unit :=
  match (let? json := JSON_parse body in next_gameId json) with
  | Throw err => trigger (console_log (LogError err))
  | Ok gameID =>
      trigger (console_log (LogValue gameID)) ;;
      match getGameStats gameID with
      | Thrown err => trigger (console_log (LogError err))
      | Listening listeners => listeners
      end
  end.

(** [getCurrentGame], lines 150-170. *)
Definition getCurrentGame (teamID : value) : sent :=
  match request_url teamID with
  | Throw err => Thrown err
  | Ok requestURL =>
      Listening (body <- trigger (httpClient_get requestURL) ;; on_schedule_end body)
  end.

(** [getTeamIdsFromText], lines 138-148: the teams it returns, and the
    program of the request it has sent. *)
Definition getTeamIdsFromText (description : js_string) : returned :=
  let teams := teams_of description in
  match getCurrentGame (first_team teams) with
  | Thrown err => Raised err
  | Listening listeners => Returned teams listeners
  end.

(** The [finish] listener, lines 109-124. *)
Definition on_finish (blob_name : js_string) : prog (result unit) :=
  detected <- trigger (textDetection (publicUrl bucket_name blob_name)) ;;
  match detected with
  | Throw err => Ret (Throw err)
  | Ok [] => Ret (Throw TypeError)
  | Ok (first :: _) =>
      match getTeamIdsFromText (description first) with
      | Raised err => Ret (Throw err)
      | Returned teamIds listeners =>
          sent_before listeners
            (trigger (res_status 200) ;;
             trigger (res_send (VArray teamIds))) ;;
          Ret (Ok tt)
      end
  end.

(** The handler of [POST /upload], lines 93-127. *)
Definition upload (req : request) : prog (result unit) :=
  match req_file req with
  | None =>
      trigger (res_status 400) ;;
      trigger (res_send (VString (lit "No file uploaded."))) ;;
      Ret (Ok tt)
  | Some f =>
      ended <- trigger (blob_write (originalname f) (buffer f)) ;;
      match ended with
      | WriteError err => trigger (next err) ;; Ret (Ok tt)
      | Finish => on_finish (originalname f)
      end
  end.

End Revision.

Lemma words_from_not_nil (s piece : js_string) : words_from piece s <> [].
Proof.
  revert piece. induction s as [|c rest IH]; intro piece; simpl.
  - discriminate.
  - destruct (c =? 32)%N; [discriminate | apply IH].
Qed.

Lemma join_words_from (s : js_string) :
  forall piece, join [32%N] (words_from piece s) = piece ++ s.
Proof.
  induction s as [|c rest IH]; intro piece; cbn [words_from].
  - simpl. now rewrite app_nil_r.
  - destruct (c =? 32)%N eqn:Hc.
    + apply N.eqb_eq in Hc. subst c. cbn [join].
      destruct (words_from [] rest) eqn:Hrest.
      * now apply words_from_not_nil in Hrest.
      * rewrite <- Hrest, (IH []). reflexivity.
    + rewrite (IH (piece ++ [c])), <- app_assoc. reflexivity.
Qed.

Lemma words_from_no_space (s : js_string) :
  forall piece, ~ In 32%N piece ->
    Forall (fun word => ~ In 32%N word) (words_from piece s).
Proof.
  induction s as [|c rest IH]; intros piece Hpiece; cbn [words_from].
  - now constructor.
  - destruct (c =? 32)%N eqn:Hc.
    + constructor; [exact Hpiece|]. apply IH. intros [].
    + apply IH. intro Hin. apply in_app_or in Hin as [Hin | [Heq | []]].
      * now apply Hpiece.
      * rewrite Heq in Hc. discriminate.
Qed.

(** X14. The split on single spaces of the earlier revision loses
    nothing: joining its pieces with a space gives the text back, and no
    piece contains a space. *)
Theorem split_join_round_trip (description : js_string) :
  join [32%N] (words description) = description
  /\ Forall (fun word => ~ In 32%N word) (words description).
Proof.
  split.
  - unfold words. now rewrite join_words_from.
  - apply words_from_no_space. intros [].
Qed.

Lemma words_from_agree (s : js_string) :
  (forall c, In c s -> is_white_space c = true -> c = 32%N) ->
  forall (in_sep : bool) (piece : js_string),
    (in_sep = true -> piece = []) ->
    collect_teams (words_from piece s)
    = collect_teams (split_from in_sep piece s).
Proof.
  induction s as [|c rest IH]; intros Hspaces in_sep piece Hsep;
    cbn [words_from split_from].
  - reflexivity.
  - assert (Hrest : forall x, In x rest -> is_white_space x = true -> x = 32%N)
      by (intros x Hx; apply Hspaces; now right).
    destruct (c =? 32)%N eqn:Hc.
    + apply N.eqb_eq in Hc. subst c.
      change (is_white_space 32) with true. cbv iota.
      rewrite collect_teams_cons, (IH Hrest true []) by reflexivity.
      destruct in_sep.
      * now rewrite (Hsep eq_refl).
      * now rewrite collect_teams_cons.
    + destruct (is_white_space c) eqn:Hw.
      * rewrite (Hspaces c (or_introl eq_refl) Hw) in Hc. discriminate.
      * apply (IH Hrest). discriminate.
Qed.

(** X15. On a text whose only white-space characters are spaces, the
    two revisions resolve the same teams, however many spaces separate
    the words. *)
Theorem revisions_agree_on_spaced_text (description : js_string) :
  (forall c, In c description -> is_white_space c = true -> c = 32%N) ->
  teams_of description = team_ids description.
Proof.
  intro Hspaces. unfold teams_of, team_ids, words, split.
  apply words_from_agree; [exact Hspaces | discriminate].
Qed.

(** They differ as soon as a line break separates the words. *)
Example revisions_differ_on_lines :
  teams_of (lit "TOR" ++ 10%N :: lit "MTL") = []
  /\ team_ids (lit "TOR" ++ 10%N :: lit "MTL") = [VNumber 10; VNumber 8].
Proof. split; reflexivity. Qed.

Lemma first_team_is_printable (ws : list js_string) :
  first_team (collect_teams ws) = VUndefined
  \/ exists n, first_team (collect_teams ws) = VNumber n.
Proof.
  rewrite collect_teams_reference.
  destruct (keep_teams ws) as [|n l]; [now left | right; now exists n].
Qed.

Section RevisionProperties.

Variable JSON_parse : js_string -> result value.
Variable bucket_name : js_string.

(** X16. The earlier revision asks the stats API even when the text
    names no team: [teams[0]] is then [undefined], and the request goes
    to the address of the team called [undefined]. The returned list
    is empty. *)
Theorem request_without_team (description : js_string) :
  (forall word, In word (words description) -> ~ In word team_keys) ->
  getTeamIdsFromText JSON_parse description
  = Returned []
      (body <- trigger
                 (httpClient_get
                    (lit "https://statsapi.web.nhl.com/api/v1/teams/undefined?expand=team.schedule.next")) ;;
       on_schedule_end JSON_parse body).
Proof.
  intro Hnone. unfold getTeamIdsFromText, teams_of. cbv zeta.
  rewrite collect_teams_none by (apply Forall_forall; exact Hnone).
  reflexivity.
Qed.

Lemma listeners_are_quiet (h : env) (teamID : value) (listeners : prog unit) :
  getCurrentGame JSON_parse teamID = Listening listeners ->
  Forall (fun c => is_log_call c = true \/ is_stats_call c = true)
    (trace h listeners).
Proof.
  unfold getCurrentGame. destruct (request_url teamID) as [url|]; [|discriminate].
  intro H. injection H as <-. cbn [bind trigger].
  rewrite (proj1 (run_vis h _ _)). cbv beta. constructor; [now right|].
  unfold on_schedule_end.
  destruct (let? json := JSON_parse (h _ (httpClient_get url)) in next_gameId json)
    as [gameID|err].
  - rewrite (proj1 (run_log h _ _)). constructor; [now left|].
    unfold getGameStats.
    destruct (concat (lit "https://statsapi.web.nhl.com/api/v1/game/") gameID)
      as [prefix|err].
    + rewrite bind_trigger, (proj1 (run_vis h _ _)). constructor; [now right|].
      destruct (JSON_parse (h _ (httpClient_get (prefix ++ lit "/boxscore"))));
        repeat constructor.
    + repeat constructor.
  - repeat constructor.
Qed.

(** X17. The earlier handler does not wait for the stats API: once the
    write has finished and the OCR has found text, it sends the schedule
    request for the first team of the first annotation and at once
    answers 200 with the list of the teams, whatever the stats API
    answers; the answers are handled after the response, by logging and
    requesting only. *)
Theorem upload_answers_with_the_teams
    (h : env) (f : file) (first : annotation) (others : list annotation) :
  h _ (blob_write (originalname f) (buffer f)) = Finish ->
  h _ (textDetection (publicUrl bucket_name (originalname f))) = Ok (first :: others) ->
  exists url later,
    request_url (first_team (teams_of (description first))) = Ok url
    /\ trace h (upload JSON_parse bucket_name {| req_file := Some f |})
       = Call (blob_write (originalname f) (buffer f))
         :: Call (textDetection (publicUrl bucket_name (originalname f)))
         :: Call (httpClient_get url)
         :: Call (res_status 200)
         :: Call (res_send (VArray (teams_of (description first))))
         :: later
    /\ Forall (fun c => is_log_call c = true \/ is_stats_call c = true) later
    /\ outcome h (upload JSON_parse bucket_name {| req_file := Some f |}) = Ok tt.
Proof.
  intros Hwrite Hocr.
  destruct (request_url (first_team (teams_of (description first))))
    as [url|err] eqn:Hurl.
  - exists url, (trace h (on_schedule_end JSON_parse (h _ (httpClient_get url)))).
    split; [reflexivity|].
    assert (Hquiet : Forall (fun c => is_log_call c = true \/ is_stats_call c = true)
                       (trace h (on_schedule_end JSON_parse (h _ (httpClient_get url))))).
    { pose proof (listeners_are_quiet h
                    (first_team (teams_of (description first)))
                    (body <- trigger (httpClient_get url) ;;
                     on_schedule_end JSON_parse body)) as Hall.
      unfold getCurrentGame in Hall. rewrite Hurl in Hall.
      specialize (Hall eq_refl).
      rewrite bind_trigger, (proj1 (run_vis h _ _)) in Hall.
      now inversion Hall. }
    unfold upload. cbn [req_file].
    rewrite bind_trigger, (proj1 (run_vis h _ _)), (proj2 (run_vis h _ _)), Hwrite.
    unfold on_finish.
    rewrite bind_trigger, (proj1 (run_vis h _ _)), (proj2 (run_vis h _ _)), Hocr.
    unfold getTeamIdsFromText, getCurrentGame. cbv zeta. rewrite Hurl.
    cbn [sent_before bind trigger].
    rewrite (proj1 (run_vis h _ _)), (proj2 (run_vis h _ _)).
    rewrite (proj1 (run_vis h _ _)), (proj2 (run_vis h _ _)).
    rewrite (proj1 (run_vis h _ _)), (proj2 (run_vis h _ _)).
    rewrite (proj1 (run_bind h _ _)), (proj2 (run_bind h _ _)).
    rewrite (proj1 (run_bind h _ _)).
    cbn [trace outcome run fst snd]. rewrite !app_nil_r.
    repeat split. exact Hquiet.
  - exfalso. unfold request_url, concat, teams_of in Hurl.
    destruct (first_team_is_printable (words (description first))) as [Hu | [n Hn]].
    + rewrite Hu in Hurl. discriminate.
    + rewrite Hn in Hurl. discriminate.
Qed.

(** X18. The earlier handler reads the first annotation without looking
    whether there is one: when the OCR finds no text, the listener
    throws a [TypeError] after the OCR call and nothing is sent on the
    response. *)
Theorem upload_without_text_throws (h : env) (f : file) :
  h _ (blob_write (originalname f) (buffer f)) = Finish ->
  h _ (textDetection (publicUrl bucket_name (originalname f))) = Ok [] ->
  trace h (upload JSON_parse bucket_name {| req_file := Some f |})
  = [ Call (blob_write (originalname f) (buffer f));
      Call (textDetection (publicUrl bucket_name (originalname f))) ]
  /\ outcome h (upload JSON_parse bucket_name {| req_file := Some f |})
     = Throw TypeError.
Proof.
  intros Hwrite Hocr. unfold upload. cbn [req_file].
  rewrite bind_trigger, (proj1 (run_vis h _ _)), (proj2 (run_vis h _ _)), Hwrite.
  unfold on_finish.
  rewrite bind_trigger, (proj1 (run_vis h _ _)), (proj2 (run_vis h _ _)), Hocr.
  split; reflexivity.
Qed.

End RevisionProperties.

(** X19. For a team whose next game is live the two revisions select
    the same game: the earlier one always takes the next game, the
    current one takes it when its state equals [Live]. *)
Theorem revisions_select_the_live_game (json nextGame state : value) :
  path json next_game_path = Ok nextGame ->
  path nextGame [lit "status"; lit "abstractGameState"] = Ok state ->
  equals_Live state = Ok true ->
  select_gameId json = next_gameId json.
Proof.
  intros Hnext Hstate Hlive. unfold select_gameId, next_gameId.
  rewrite path_snoc, Hnext. cbn [rbind]. cbn [path rbind] in Hstate.
  destruct (get nextGame (lit "status")) as [status|]; [|discriminate].
  cbn [rbind] in *.
  destruct (get status (lit "abstractGameState")) as [st|]; [|discriminate].
  cbn [rbind] in *. injection Hstate as ->. rewrite Hlive. reflexivity.
Qed.

(** When the next game has not started, the earlier revision asks
    for the boxscore of a game to come. *)
Example revisions_differ_before_the_game :
  next_gameId schedule_idle = Ok (VNumber 2019020500)
  /\ select_gameId schedule_idle = Ok (VNumber 2019020480).
Proof. split; reflexivity. Qed.

Lemma revisions_agree_on_spaced_text_witness :
  teams_of (lit "TOR 2  MTL 1") = team_ids (lit "TOR 2  MTL 1").
Proof.
  apply (revisions_agree_on_spaced_text (lit "TOR 2  MTL 1")).
  intros c Hin Hc. vm_compute in Hin.
  repeat (destruct Hin as [<- | Hin]; [try reflexivity; discriminate Hc|]).
  contradiction.
Defined.

Lemma request_without_team_witness :
  getTeamIdsFromText (parse_as VNull) (lit "soup of the day")
  = Returned []
      (body <- trigger
                 (httpClient_get
                    (lit "https://statsapi.web.nhl.com/api/v1/teams/undefined?expand=team.schedule.next")) ;;
       on_schedule_end (parse_as VNull) body).
Proof.
  apply (request_without_team (parse_as VNull) (lit "soup of the day")).
  intros word Hin. vm_compute in Hin.
  destruct Hin as [<- | [<- | [<- | [<- | []]]]]; not_listed.
Defined.

Lemma upload_answers_with_the_teams_witness :
  let f := {| originalname := lit "rink.png"; buffer := [137; 80; 78; 71]%N |} in
  let h := sample_env [{| description := lit "TOR 2 MTL 1" |}] silent in
  exists url later,
    request_url (first_team (teams_of (lit "TOR 2 MTL 1"))) = Ok url
    /\ trace h (upload (parse_table []) (lit "uploads") {| req_file := Some f |})
       = Call (blob_write (originalname f) (buffer f))
         :: Call (textDetection (publicUrl (lit "uploads") (originalname f)))
         :: Call (httpClient_get url)
         :: Call (res_status 200)
         :: Call (res_send (VArray (teams_of (lit "TOR 2 MTL 1"))))
         :: later
    /\ Forall (fun c => is_log_call c = true \/ is_stats_call c = true) later
    /\ outcome h (upload (parse_table []) (lit "uploads") {| req_file := Some f |})
       = Ok tt.
Proof.
  apply (upload_answers_with_the_teams (parse_table []) (lit "uploads")
           (sample_env [{| description := lit "TOR 2 MTL 1" |}] silent)
           {| originalname := lit "rink.png"; buffer := [137; 80; 78; 71]%N |}
           {| description := lit "TOR 2 MTL 1" |} []);
    reflexivity.
Defined.

(** The earlier handler on a picture that shows [TOR 2 MTL 1], with a
    stats API whose answers do not parse. *)
Example upload_of_a_scoreboard_earlier :
  let f := {| originalname := lit "rink.png"; buffer := [137; 80; 78; 71]%N |} in
  run (sample_env [{| description := lit "TOR 2 MTL 1" |}] silent)
    (upload (parse_table []) (lit "uploads") {| req_file := Some f |})
  = ([ Call (blob_write (lit "rink.png") [137; 80; 78; 71]%N);
       Call (textDetection (lit "https://storage.googleapis.com/uploads/rink.png"));
       Call (httpClient_get
               (lit "https://statsapi.web.nhl.com/api/v1/teams/10?expand=team.schedule.next"));
       Call (res_status 200);
       Call (res_send (VArray [VNumber 10; VNumber 8]));
       Call (console_log (LogError SyntaxError)) ],
     Ok tt).
Proof. vm_compute. reflexivity. Qed.

Lemma upload_without_text_throws_witness :
  let f := {| originalname := lit "rink.png"; buffer := [137; 80; 78; 71]%N |} in
  let h := sample_env [] silent in
  trace h (upload (parse_as VNull) (lit "uploads") {| req_file := Some f |})
  = [ Call (blob_write (originalname f) (buffer f));
      Call (textDetection (publicUrl (lit "uploads") (originalname f))) ]
  /\ outcome h (upload (parse_as VNull) (lit "uploads") {| req_file := Some f |})
     = Throw TypeError.
Proof.
  apply (upload_without_text_throws (parse_as VNull) (lit "uploads")
           (sample_env [] silent)
           {| originalname := lit "rink.png"; buffer := [137; 80; 78; 71]%N |});
    reflexivity.
Defined.

Lemma revisions_select_the_live_game_witness :
  select_gameId schedule_live = next_gameId schedule_live.
Proof.
  apply (revisions_select_the_live_game schedule_live
           (game_fixture 2019020500 "Live") (VString (lit "Live")));
    reflexivity.
Defined.

End Earlier.
